(** * DocView: the place and load arbitration model of pdf-viewer.js

    A shallow embedding of [PDFModel] (the replicated Croquet model of
    src/pdf-viewer.js), of the fragment of [PDFView.uploadFile] that decides
    between [load:start] and [load:request], and of the hashing part of
    [FileUploader], together with the properties the specification states
    about them.

    Conventions.
    - A JavaScript field that may be [undefined] or [null] is an [option].
    - Truthiness ([if (x)], [!x], [x || y]) is written out by [truthy].
    - [this.publish], [this.future(..)], [this.persistSession] and
      [console.log] are recorded, in order, in the list of [Effect]s a handler
      returns; [this.now()] is the handler's time argument.
    - [knownHandles] is a JavaScript object used as a map from content digests
      (43-character base64url strings, which never name an inherited
      property) to entries; it is a [gmap]. *)

From Stdlib Require Import ZArith String Ascii List Bool Lia.
From stdpp Require Import base option gmap strings list.

Local Open Scope string_scope.
Local Open Scope list_scope.
Local Open Scope Z_scope.

(** ** Collaborators outside the repository *)

(** Croquet's [Data] API: opaque handles and their persistent ids. *)
Class CroquetData := {
  Handle : Type;
  DataId : Type;
  Data_toId : Handle -> DataId;
  Data_fromId : DataId -> Handle
}.

(** The browser primitives the uploader calls. *)
Class Browser := {
  subtle_digest_SHA256 : list Byte.byte -> list Byte.byte;
  btoa_bytes : list Byte.byte -> string
}.

(** ** Constants (top of pdf-viewer.js) *)

Definition MAX_FILE_MB : Z := 50.
Definition PLACE_TIMEOUT : Z := 1000.

(** ** JavaScript truthiness of a string-or-undefined value *)

Definition truthy (v : option string) : bool :=
  match v with
  | Some s => negb (String.eqb s "")
  | None => false
  end.

(** ** Data model *)

Inductive LockKind := LockPlace | LockLoad.

#[global] Instance LockKind_eq_dec : EqDecision LockKind.
Proof. solve_decision. Defined.

(** [this.interactionStatus]: [{}] or [{ viewId, lock, sourceHash?, time }].
    Every field of the object is optional in JavaScript, so every field is
    an [option] here. *)
Record InteractionStatus := {
  is_viewId : option string;
  is_lock : option LockKind;
  is_sourceHash : option string;
  is_time : option Z
}.

Definition emptyStatus : InteractionStatus :=
  {| is_viewId := None; is_lock := None; is_sourceHash := None; is_time := None |}.

(** The shared zoom factor: the number [1] after a reset, afterwards whatever
    token a view sent; it is only propagated. *)
Inductive Scale := ScaleNumber (n : Z) | ScaleToken (s : string).

(** [this.scroll]: [{ top, left }] after a reset, [{ page, top, left }] after
    [applyPlace]. *)
Record Scroll := {
  scroll_page : option Z;
  scroll_top : Z;
  scroll_left : Z
}.

Section Model.
Context {CD : CroquetData}.

Record HandleEntry := {
  he_handle : Handle;
  he_name : string
}.

Record PDFModel := {
  scroll : Scroll;
  relativeScale : Scale;
  pagesRotation : Z;
  scrollMode : Z;
  interactionStatus : InteractionStatus;
  knownHandles : gmap string HandleEntry;
  docSourceHash : option string
}.

(** The place part of the model state, for frame statements. *)
Definition placeState (m : PDFModel) : Scroll * Scale * Z * Z :=
  (scroll m, relativeScale m, pagesRotation m, scrollMode m).

(** *** Event payloads *)

(** [load:request]: [{ sourceHash, viewId, name, userDescription }]. *)
Record LoadRequest := {
  lr_viewId : string;
  lr_sourceHash : string;
  lr_name : string;
  lr_userDescription : option string
}.

(** [load:start]: [{ viewId, sourceHash, handle, name, userDescription? }]. *)
Record LoadSpec := {
  ls_viewId : option string;
  ls_sourceHash : string;
  ls_handle : Handle;
  ls_name : string;
  ls_userDescription : option string
}.

(** [place:set]: [{ viewId, page, top, left, scale, rotation, scrollMode }]. *)
Record PlaceData := {
  pd_viewId : string;
  pd_page : Z;
  pd_top : Z;
  pd_left : Z;
  pd_scale : Scale;
  pd_rotation : Z;
  pd_scrollMode : Z
}.

(** [rotation:request]: [{ viewId, rotation }]. *)
Record RotationRequest := {
  rr_viewId : string;
  rr_rotation : Z
}.

(** [scrollMode:request]: [{ viewId, mode }]. *)
Record ScrollModeRequest := {
  sr_viewId : string;
  sr_mode : Z
}.

(** The argument of [applyLockIfAvailable]: [{ viewId, lock: "place" }] or
    [{ viewId, sourceHash, lock: "load" }]. *)
Record LockData := {
  lq_viewId : string;
  lq_sourceHash : option string;
  lq_lock : LockKind
}.

(** *** Persisted snapshot: [{ handles, docSourceHash }] *)

Record PersistedHandle := {
  ph_id : DataId;
  ph_name : string
}.

Record Persisted := {
  p_handles : gmap string PersistedHandle;
  p_docSourceHash : option string
}.

(** *** Effects of a handler, in program order *)

(** [persistSession] is handed the method [getPersistedData]; the effect
    records the snapshot that method returns in the state at the call. *)

Inductive Effect :=
| publish_load_approved (data : LoadRequest)
| publish_load_ready (viewId : option string) (sourceHash name : string)
    (userDescription : option string)
| publish_place_update (viewId : string)
| publish_rotation_approved (data : RotationRequest)
| publish_scrollMode_approved (data : ScrollModeRequest)
| future_checkInteractionStatus (delay : Z)
| persistSession (snapshot : Persisted)
| console_log (message : string).

(** ** Handlers: state and effect passing *)

(** A method of the model: it reads [this.now()], reads and writes [this], and
    appends effects. *)
Definition Handler (A : Type) : Type :=
  Z -> PDFModel -> A * PDFModel * list Effect.

Definition ret {A} (a : A) : Handler A := fun _ m => (a, m, []).

Definition bind {A B} (h : Handler A) (k : A -> Handler B) : Handler B :=
  fun t m =>
    match h t m with
    | (a, m1, out1) =>
        match k a t m1 with
        | (b, m2, out2) => (b, m2, out1 ++ out2)
        end
    end.

Definition this : Handler PDFModel := fun _ m => (m, m, []).
Definition this_now : Handler Z := fun t m => (t, m, []).
Definition assign (f : PDFModel -> PDFModel) : Handler unit :=
  fun _ m => (tt, f m, []).
Definition emit (e : Effect) : Handler unit := fun _ m => (tt, m, [e]).

Notation "x <- c1 ;; c2" := (bind c1 (fun x => c2))
  (at level 100, c1 at next level, right associativity).
Notation "c1 ;;; c2" := (bind c1 (fun _ => c2))
  (at level 100, right associativity).

(** Field assignments [this.f = v]. *)
Definition set_interactionStatus (s : InteractionStatus) (m : PDFModel) : PDFModel :=
  {| scroll := scroll m; relativeScale := relativeScale m;
     pagesRotation := pagesRotation m; scrollMode := scrollMode m;
     interactionStatus := s; knownHandles := knownHandles m;
     docSourceHash := docSourceHash m |}.

Definition set_scroll (s : Scroll) (m : PDFModel) : PDFModel :=
  {| scroll := s; relativeScale := relativeScale m;
     pagesRotation := pagesRotation m; scrollMode := scrollMode m;
     interactionStatus := interactionStatus m; knownHandles := knownHandles m;
     docSourceHash := docSourceHash m |}.

Definition set_relativeScale (s : Scale) (m : PDFModel) : PDFModel :=
  {| scroll := scroll m; relativeScale := s;
     pagesRotation := pagesRotation m; scrollMode := scrollMode m;
     interactionStatus := interactionStatus m; knownHandles := knownHandles m;
     docSourceHash := docSourceHash m |}.

Definition set_pagesRotation (r : Z) (m : PDFModel) : PDFModel :=
  {| scroll := scroll m; relativeScale := relativeScale m;
     pagesRotation := r; scrollMode := scrollMode m;
     interactionStatus := interactionStatus m; knownHandles := knownHandles m;
     docSourceHash := docSourceHash m |}.

Definition set_scrollMode (s : Z) (m : PDFModel) : PDFModel :=
  {| scroll := scroll m; relativeScale := relativeScale m;
     pagesRotation := pagesRotation m; scrollMode := s;
     interactionStatus := interactionStatus m; knownHandles := knownHandles m;
     docSourceHash := docSourceHash m |}.

Definition set_knownHandles (k : gmap string HandleEntry) (m : PDFModel) : PDFModel :=
  {| scroll := scroll m; relativeScale := relativeScale m;
     pagesRotation := pagesRotation m; scrollMode := scrollMode m;
     interactionStatus := interactionStatus m; knownHandles := k;
     docSourceHash := docSourceHash m |}.

Definition set_docSourceHash (h : option string) (m : PDFModel) : PDFModel :=
  {| scroll := scroll m; relativeScale := relativeScale m;
     pagesRotation := pagesRotation m; scrollMode := scrollMode m;
     interactionStatus := interactionStatus m; knownHandles := knownHandles m;
     docSourceHash := h |}.

(** *** The methods of [PDFModel] *)

(** [getPersistedData()] *)
Definition getPersistedData (m : PDFModel) : Persisted :=
  {| p_handles :=
       (fun e => {| ph_id := Data_toId (he_handle e); ph_name := he_name e |})
         <$> knownHandles m;
     p_docSourceHash := docSourceHash m |}.

(** [resetPlaceParameters()] *)
Definition resetPlaceParameters : Handler unit :=
  assign (set_scroll {| scroll_page := None; scroll_top := 0; scroll_left := 0 |}) ;;;
  assign (set_relativeScale (ScaleNumber 1)) ;;;
  assign (set_pagesRotation 0) ;;;
  assign (set_scrollMode 0).

(** [releaseInteractionStatus()] *)
Definition releaseInteractionStatus : Handler unit :=
  assign (set_interactionStatus emptyStatus).

(** [applyLockIfAvailable(data)] *)
Definition applyLockIfAvailable (data : LockData) : Handler bool :=
  m <- this ;;
  let newViewId := lq_viewId data in
  let viewId := is_viewId (interactionStatus m) in
  let lock := is_lock (interactionStatus m) in
  let grant : Handler bool :=
    t <- this_now ;;
    assign (set_interactionStatus
              {| is_viewId := Some (lq_viewId data);
                 is_lock := Some (lq_lock data);
                 is_sourceHash := lq_sourceHash data;
                 is_time := Some t |}) ;;;
    ret true in
  match lq_lock data with
  | LockPlace =>
      if truthy viewId
         && (negb (bool_decide (viewId = Some newViewId))
             || negb (bool_decide (lock = Some LockPlace)))
      then ret false
      else emit (future_checkInteractionStatus PLACE_TIMEOUT) ;;; grant
  | LockLoad =>
      if bool_decide (lock = Some LockLoad)
         && bool_decide (is_sourceHash (interactionStatus m) = lq_sourceHash data)
      then ret false
      else grant
  end.

(** [checkInteractionStatus()] *)
Definition checkInteractionStatus : Handler unit :=
  m <- this ;;
  t <- this_now ;;
  let lock := is_lock (interactionStatus m) in
  let expired :=
    match is_time (interactionStatus m) with
    | Some time => t - time =? PLACE_TIMEOUT
    | None => false
    end in
  if bool_decide (lock = Some LockPlace) && expired
  then releaseInteractionStatus
  else ret tt.

(** [requestLoad(data)] *)
Definition requestLoad (data : LoadRequest) : Handler unit :=
  ok <- applyLockIfAvailable
          {| lq_viewId := lr_viewId data;
             lq_sourceHash := Some (lr_sourceHash data);
             lq_lock := LockLoad |} ;;
  if negb ok then ret tt
  else emit (publish_load_approved data).

(** [startLoad(data)] *)
Definition startLoad (data : LoadSpec) : Handler unit :=
  let sourceHash := ls_sourceHash data in
  m <- this ;;
  (if negb (bool_decide (is_Some (knownHandles m !! sourceHash)))
   then assign (set_knownHandles
                  (<[sourceHash := {| he_handle := ls_handle data;
                                      he_name := ls_name data |}]> (knownHandles m)))
   else ret tt) ;;;
  m <- this ;;
  if negb (truthy (ls_userDescription data))
     && negb (bool_decide (Some sourceHash = is_sourceHash (interactionStatus m)))
  then emit (console_log (String.append "PDFModel: ignoring superseded load of "
                       (ls_name data)))
  else
    assign (set_interactionStatus emptyStatus) ;;;
    resetPlaceParameters ;;;
    assign (set_docSourceHash (Some sourceHash)) ;;;
    m <- this ;;
    emit (persistSession (getPersistedData m)) ;;;
    emit (publish_load_ready (ls_viewId data) sourceHash (ls_name data)
            (ls_userDescription data)).

(** [applyPlace(data)] *)
Definition applyPlace (data : PlaceData) : Handler unit :=
  assign (set_scroll {| scroll_page := Some (pd_page data);
                        scroll_top := pd_top data;
                        scroll_left := pd_left data |}) ;;;
  assign (set_relativeScale (pd_scale data)) ;;;
  assign (set_pagesRotation (pd_rotation data)) ;;;
  assign (set_scrollMode (pd_scrollMode data)) ;;;
  emit (publish_place_update (pd_viewId data)).

(** [setPlace(data)] *)
Definition setPlace (data : PlaceData) : Handler unit :=
  ok <- applyLockIfAvailable
          {| lq_viewId := pd_viewId data; lq_sourceHash := None;
             lq_lock := LockPlace |} ;;
  if negb ok then ret tt
  else applyPlace data.

(** [endInteraction(viewId)] *)
Definition endInteraction (viewId : string) : Handler unit :=
  m <- this ;;
  if bool_decide (is_viewId (interactionStatus m) = Some viewId)
  then releaseInteractionStatus
  else ret tt.

(** [requestRotation(data)] *)
Definition requestRotation (data : RotationRequest) : Handler unit :=
  ok <- applyLockIfAvailable
          {| lq_viewId := rr_viewId data; lq_sourceHash := None;
             lq_lock := LockPlace |} ;;
  if ok then emit (publish_rotation_approved data) else ret tt.

(** [requestScrollMode(data)] *)
Definition requestScrollMode (data : ScrollModeRequest) : Handler unit :=
  ok <- applyLockIfAvailable
          {| lq_viewId := sr_viewId data; lq_sourceHash := None;
             lq_lock := LockPlace |} ;;
  if ok then emit (publish_scrollMode_approved data) else ret tt.

(** [onViewExit(viewId)] *)
Definition onViewExit (viewId : string) : Handler unit :=
  m <- this ;;
  if bool_decide (is_viewId (interactionStatus m) = Some viewId)
  then releaseInteractionStatus
  else ret tt.

(** [restoreFromPersisted({ handles, docSourceHash })]; [None] when the
    destructuring of [this.knownHandles[docSourceHash]] throws because the
    snapshot names a document it holds no handle for.  The model has no
    [viewId] of its own, so the replayed [load:start] carries [undefined]. *)
Definition restoreFromPersisted (p : Persisted) (t : Z) (m : PDFModel)
  : option (PDFModel * list Effect) :=
  let m1 :=
    set_knownHandles
      ((fun e => {| he_handle := Data_fromId (ph_id e); he_name := ph_name e |})
         <$> p_handles p) m in
  match p_docSourceHash p with
  | Some h =>
      if truthy (Some h) then
        match knownHandles m1 !! h with
        | Some e =>
            let r := startLoad {| ls_viewId := None; ls_sourceHash := h;
                                  ls_handle := he_handle e; ls_name := he_name e;
                                  ls_userDescription := Some "recovered session" |}
                       t m1 in
            Some (snd (fst r), snd r)
        | None => None
        end
      else Some (m1, [])
  | None => Some (m1, [])
  end.

(** The fields [init] assigns before it looks at [persisted]:
    [resetPlaceParameters()], [interactionStatus = {}], [knownHandles = {}],
    [docSourceHash = null]. *)
Definition fresh_model : PDFModel :=
  {| scroll := {| scroll_page := None; scroll_top := 0; scroll_left := 0 |};
     relativeScale := ScaleNumber 1;
     pagesRotation := 0;
     scrollMode := 0;
     interactionStatus := emptyStatus;
     knownHandles := ∅;
     docSourceHash := None |}.

(** [init(_options, persisted)]: the state once the constructor has run. *)
Definition init (persisted : option Persisted) (t : Z)
  : option (PDFModel * list Effect) :=
  match persisted with
  | Some p => restoreFromPersisted p t fresh_model
  | None => Some (fresh_model, [])
  end.

(** ** The messages the model receives *)

(** One constructor per subscription of [init], and the future message that
    [applyLockIfAvailable] schedules for itself. *)
Inductive Command :=
| load_request (data : LoadRequest)
| load_start (data : LoadSpec)
| place_set (data : PlaceData)
| place_endInteraction (viewId : string)
| rotation_request (data : RotationRequest)
| scrollMode_request (data : ScrollModeRequest)
| view_exit (viewId : string)
| future_check.

Definition dispatch (c : Command) : Handler unit :=
  match c with
  | load_request d => requestLoad d
  | load_start d => startLoad d
  | place_set d => setPlace d
  | place_endInteraction v => endInteraction v
  | rotation_request d => requestRotation d
  | scrollMode_request d => requestScrollMode d
  | view_exit v => onViewExit v
  | future_check => checkInteractionStatus
  end.

(** The model after a message executed at logical time [t], and what it
    emitted. *)
Definition deliver (t : Z) (c : Command) (m : PDFModel) : PDFModel * list Effect :=
  let r := dispatch c t m in (snd (fst r), snd r).

(** A log of timestamped messages, executed in order. *)
Fixpoint run (log : list (Z * Command)) (m : PDFModel) : PDFModel :=
  match log with
  | [] => m
  | (t, c) :: rest => run rest (fst (deliver t c m))
  end.

(** Everything the log emitted, in order. *)
Fixpoint run_effects (log : list (Z * Command)) (m : PDFModel) : list Effect :=
  match log with
  | [] => []
  | (t, c) :: rest => snd (deliver t c m) ++ run_effects rest (fst (deliver t c m))
  end.

(** The client identity a view-originated message carries. *)
Definition command_viewId (c : Command) : option string :=
  match c with
  | load_request d => Some (lr_viewId d)
  | load_start d => ls_viewId d
  | place_set d => Some (pd_viewId d)
  | place_endInteraction v => Some v
  | rotation_request d => Some (rr_viewId d)
  | scrollMode_request d => Some (sr_viewId d)
  | view_exit v => Some v
  | future_check => None
  end.

(** Published by a view, as opposed to the model's own future message. *)
Definition from_view (c : Command) : bool :=
  match c with
  | future_check => false
  | _ => true
  end.

(** The three messages of the place lock class. *)
Definition place_class (c : Command) : bool :=
  match c with
  | place_set _ | rotation_request _ | scrollMode_request _ => true
  | _ => false
  end.

(** Client identities are Croquet view ids: never the empty string.  Only the
    messages that can take a lock store the identity they carry. *)
Definition command_wf (c : Command) : Prop :=
  match c with
  | load_request d => lr_viewId d <> ""
  | place_set d => pd_viewId d <> ""
  | rotation_request d => rr_viewId d <> ""
  | scrollMode_request d => sr_viewId d <> ""
  | _ => True
  end.

Definition log_wf (log : list (Z * Command)) : Prop :=
  Forall (fun e => command_wf (snd e)) log.

(** The hash of the last [load:approved] among the effects, starting from
    [last]. *)
Fixpoint last_approved (last : option string) (out : list Effect) : option string :=
  match out with
  | [] => last
  | publish_load_approved d :: rest => last_approved (Some (lr_sourceHash d)) rest
  | _ :: rest => last_approved last rest
  end.

(** ** State predicates *)

(** No lock: [kind = none], no holder. *)
Definition unlocked (s : InteractionStatus) : Prop := s = emptyStatus.

(** A single lock record: one non-empty holder, one kind, its acquisition
    time, and the content hash exactly when the kind is [load]. *)
Definition held (s : InteractionStatus) : Prop :=
  exists c k t,
    c <> "" /\ is_viewId s = Some c /\ is_lock s = Some k /\
    is_time s = Some t /\
    match k with
    | LockPlace => is_sourceHash s = None
    | LockLoad => exists h, is_sourceHash s = Some h
    end.

Definition status_wf (s : InteractionStatus) : Prop := unlocked s \/ held s.

(** ** The replication substrate's clock and future queue *)

(** Modelled from the spec: Croquet's virtual clock and deferred-callback
    primitive (section 6: a per-replica virtual clock; a schedule-after-delay
    primitive keyed to that clock).  [w_futures] holds the due times of the
    pending [checkInteractionStatus] calls, in scheduling order. *)
Record World := {
  w_model : PDFModel;
  w_clock : Z;
  w_futures : list Z
}.

(** The due times of the future messages among the effects of a handler that
    ran at time [t]. *)
Fixpoint scheduled (t : Z) (out : list Effect) : list Z :=
  match out with
  | [] => []
  | future_checkInteractionStatus d :: rest => (t + d) :: scheduled t rest
  | _ :: rest => scheduled t rest
  end.

Inductive Entry :=
| external (t : Z) (c : Command)
| fire.

(** One entry of the ordered log.  An external event stamped [t] is executed
    when the clock has not passed [t] and no pending future message is due
    before [t]; the clock then reads [t].  [fire] executes the pending future
    message that is due first, at its due time. *)
Definition world_step (e : Entry) (w : World) : option World :=
  match e with
  | external t c =>
      if (w_clock w <=? t) && forallb (Z.leb t) (w_futures w)
         && from_view c
      then
        let r := deliver t c (w_model w) in
        Some {| w_model := fst r; w_clock := t;
                w_futures := w_futures w ++ scheduled t (snd r) |}
      else None
  | fire =>
      match w_futures w with
      | d :: rest =>
          if (w_clock w <=? d) && forallb (Z.leb d) rest
          then
            let r := deliver d future_check (w_model w) in
            Some {| w_model := fst r; w_clock := d;
                    w_futures := rest ++ scheduled d (snd r) |}
          else None
      | [] => None
      end
  end.

Fixpoint world_run (log : list Entry) (w : World) : option World :=
  match log with
  | [] => Some w
  | e :: rest =>
      match world_step e w with
      | Some w1 => world_run rest w1
      | None => None
      end
  end.

(** The world when the session starts at time [t]. *)
Definition world_init (persisted : option Persisted) (t : Z) : option World :=
  match init persisted t with
  | Some (m, out) =>
      Some {| w_model := m; w_clock := t; w_futures := scheduled t out |}
  | None => None
  end.

End Model.

(** ** The view side of a file drop *)

Section Client.
Context {CD : CroquetData} {BR : Browser}.

(** The fields of [PDFView] that [uploadFile] and [onLoadApproved] read. *)
Record PDFView := {
  v_viewId : string;
  v_userDescription : option string;
  v_docSourceHash : option string
}.

(** [this.defaultUserDescription], set in the constructor to
    [`view ${this.viewId.slice(0, 2)}`]. *)
Definition defaultUserDescription (v : PDFView) : string :=
  String.append "view " (substring 0 2 (v_viewId v)).

(** [getUserDescription()]:
    [this.userDescription || this.defaultUserDescription]. *)
Definition getUserDescription (v : PDFView) : string :=
  match v_userDescription v with
  | Some s => if truthy (Some s) then s else defaultUserDescription v
  | None => defaultUserDescription v
  end.

(** The end of [uploadFile(file)], once the admission checks have passed and
    [sourceHash] is known: what the view publishes ([None] after the
    "document is already loaded" warning). *)
Definition uploadFile_publish (v : PDFView) (m : PDFModel)
    (sourceHash fileName : string) : option Command :=
  if bool_decide (Some sourceHash = v_docSourceHash v) then None
  else
    let userDescription := getUserDescription v in
    match knownHandles m !! sourceHash with
    | Some existing =>
        Some (load_start {| ls_sourceHash := sourceHash;
                            ls_viewId := Some (v_viewId v);
                            ls_handle := he_handle existing;
                            ls_name := he_name existing;
                            ls_userDescription := Some userDescription |})
    | None =>
        Some (load_request {| lr_sourceHash := sourceHash;
                              lr_viewId := v_viewId v;
                              lr_name := fileName;
                              lr_userDescription := Some userDescription |})
    end.

(** What [onLoadApproved(data)] publishes.  [uploaded] is [None] when the
    view has no active uploader, and otherwise the result of
    [activeUploader.getPDFHandle()] ([null] after a failed conversion). *)
Definition onLoadApproved_publish (v : PDFView) (data : LoadRequest)
    (uploaded : option (option Handle)) : option Command :=
  if String.eqb (lr_viewId data) (v_viewId v) then
    match uploaded with
    | Some (Some handle) =>
        Some (load_start {| ls_viewId := Some (lr_viewId data);
                            ls_sourceHash := lr_sourceHash data;
                            ls_handle := handle;
                            ls_name := lr_name data;
                            ls_userDescription := None |})
    | _ => None
    end
  else None.

(** ** FileUploader: hashing the dropped file *)

(** What [getSourceBuffer()] resolves to: an [ArrayBuffer] for an OS file
    (from [file.arrayBuffer()] or a [FileReader]), or whatever the embedding
    page put in [croquet_contents]. *)
Inductive SourceBuffer :=
| ArrayBuffer (bytes : list Byte.byte)
| Uint8Array (bytes : list Byte.byte).

Definition buffer_bytes (b : SourceBuffer) : list Byte.byte :=
  match b with
  | ArrayBuffer bytes | Uint8Array bytes => bytes
  end.

(** [buffer.length]: an [ArrayBuffer] has [byteLength] and no [length]
    property, so the read yields [undefined]; a typed array has one. *)
Definition buffer_length (b : SourceBuffer) : option Z :=
  match b with
  | ArrayBuffer _ => None
  | Uint8Array bytes => Some (Z.of_nat (length bytes))
  end.

(** "file is either an OS file object or a POJO with properties
    [{ name, size, type, croquet_contents }]". *)
Inductive DroppedFile :=
| OSFile (name type : string) (contents : list Byte.byte) (has_arrayBuffer : bool)
| PojoFile (name : string) (size : Z) (type : string)
    (croquet_contents : SourceBuffer).

Definition file_type (f : DroppedFile) : string :=
  match f with
  | OSFile _ type _ _ | PojoFile _ _ type _ => type
  end.

(** The raw bytes of the dropped file, before any conversion. *)
Definition file_bytes (f : DroppedFile) : list Byte.byte :=
  match f with
  | OSFile _ _ contents _ => contents
  | PojoFile _ _ _ croquet_contents => buffer_bytes croquet_contents
  end.

Record FileUploader := {
  fu_file : DroppedFile;
  fu_needsConversion : bool;
  fu_sourceHash : option string
}.

(** [new FileUploader(file, sessionId)] *)
Definition newFileUploader (file : DroppedFile) : FileUploader :=
  {| fu_file := file;
     fu_needsConversion := negb (String.eqb (file_type file) "application/pdf");
     fu_sourceHash := None |}.

(** [getSourceBuffer()] *)
Definition getSourceBuffer (u : FileUploader) : SourceBuffer :=
  match fu_file u with
  | PojoFile _ _ _ croquet_contents => croquet_contents
  | OSFile _ _ contents true => ArrayBuffer contents
  | OSFile _ _ contents false => ArrayBuffer contents
  end.

(** [s.replace(/c/g, by)] for a one-character pattern. *)
Fixpoint replace_all (c : Ascii.ascii) (by_ : string) (s : string) : string :=
  match s with
  | EmptyString => EmptyString
  | String a rest =>
      if Ascii.eqb a c then String.append by_ (replace_all c by_ rest)
      else String a (replace_all c by_ rest)
  end.

(** [toBase64url(bits)] *)
Definition toBase64url (bits : list Byte.byte) : string :=
  replace_all "/"%char "_"
    (replace_all "+"%char "-" (replace_all "="%char "" (btoa_bytes bits))).

(** The calls to the platform's digest primitive, in order. *)
Inductive PlatformCall :=
| crypto_subtle_digest (algorithm : string) (data : list Byte.byte).

Definition EMPTY_HASH : string := "47DEQpj8HBSa-_TImW-5JCeuQeRkm5NMpJWZG3hSuFU".

(** [hashSourceBuffer()] *)
Definition hashSourceBuffer (u : FileUploader) : list PlatformCall * string :=
  let buffer := getSourceBuffer u in
  if bool_decide (buffer_length buffer = Some 0) then ([], EMPTY_HASH)
  else
    let bits := subtle_digest_SHA256 (buffer_bytes buffer) in
    ([crypto_subtle_digest "SHA-256" (buffer_bytes buffer)], toBase64url bits).

(** [getSourceHash()] *)
Definition getSourceHash (u : FileUploader)
  : list PlatformCall * string * FileUploader :=
  match fu_sourceHash u with
  | Some h =>
      if truthy (Some h) then ([], h, u)
      else
        let r := hashSourceBuffer u in
        (fst r, snd r,
         {| fu_file := fu_file u; fu_needsConversion := fu_needsConversion u;
            fu_sourceHash := Some (snd r) |})
  | None =>
      let r := hashSourceBuffer u in
      (fst r, snd r,
       {| fu_file := fu_file u; fu_needsConversion := fu_needsConversion u;
          fu_sourceHash := Some (snd r) |})
  end.

End Client.

(** ** Derived notions used in the statements *)

Section Derived.
Context {CD : CroquetData}.

(** The guard of the ["place"] case of [applyLockIfAvailable], negated. *)
Definition place_available (c : string) (st : InteractionStatus) : bool :=
  negb (truthy (is_viewId st)
        && (negb (bool_decide (is_viewId st = Some c))
            || negb (bool_decide (is_lock st = Some LockPlace)))).

(** The lock record a granted place-class message of [c] writes at [t]. *)
Definition place_granted (c : string) (t : Z) : InteractionStatus :=
  {| is_viewId := Some c; is_lock := Some LockPlace;
     is_sourceHash := None; is_time := Some t |}.

(** The lock record a granted [requestLoad] of [c] for [h] writes at [t]. *)
Definition load_granted (c h : string) (t : Z) : InteractionStatus :=
  {| is_viewId := Some c; is_lock := Some LockLoad;
     is_sourceHash := Some h; is_time := Some t |}.

(** [knownHandles] after the first statement of [startLoad]. *)
Definition registered (data : LoadSpec) (m : PDFModel) : gmap string HandleEntry :=
  if bool_decide (is_Some (knownHandles m !! ls_sourceHash data))
  then knownHandles m
  else <[ls_sourceHash data := {| he_handle := ls_handle data;
                                  he_name := ls_name data |}]> (knownHandles m).

(** The guard of the early return of [startLoad]. *)
Definition superseded (data : LoadSpec) (m : PDFModel) : bool :=
  negb (truthy (ls_userDescription data))
  && negb (bool_decide (Some (ls_sourceHash data)
                        = is_sourceHash (interactionStatus m))).

(** The model once an accepted [startLoad] has run. *)
Definition loaded (data : LoadSpec) (m : PDFModel) : PDFModel :=
  {| scroll := {| scroll_page := None; scroll_top := 0; scroll_left := 0 |};
     relativeScale := ScaleNumber 1;
     pagesRotation := 0;
     scrollMode := 0;
     interactionStatus := emptyStatus;
     knownHandles := registered data m;
     docSourceHash := Some (ls_sourceHash data) |}.

(** The condition under which the lease check releases the lock. *)
Definition lease_expired (t : Z) (st : InteractionStatus) : bool :=
  bool_decide (is_lock st = Some LockPlace)
  && match is_time st with
     | Some time => t - time =? PLACE_TIMEOUT
     | None => false
     end.

(** Every message but [load:start] leaves [knownHandles] alone. *)
Definition keeps_knownHandles (t : Z) (c : Command) (m : PDFModel) : Prop :=
  match c with
  | load_start _ => True
  | _ => knownHandles (fst (deliver t c m)) = knownHandles m
  end.

(** The hash in the lock record, when there is one, is the hash of the most
    recent [load:approved]. *)
Definition pending_is_last_approved (m : PDFModel) (last : option string) : Prop :=
  is_sourceHash (interactionStatus m) = None \/
  is_sourceHash (interactionStatus m) = last.

(** How a message can leave the lock record: as it was, not a [place] lock,
    or the [place] record of the client whose place-class message ran at [t],
    with the expiry check scheduled for [t + PLACE_TIMEOUT]. *)
Definition lease_written_by (t : Z) (c : Command) (m : PDFModel) : Prop :=
  let r := deliver t c m in
  (interactionStatus (fst r) = interactionStatus m /\ scheduled t (snd r) = [])
  \/ (is_lock (interactionStatus (fst r)) <> Some LockPlace
      /\ scheduled t (snd r) = [])
  \/ (exists v, place_class c = true /\ command_viewId c = Some v /\
                interactionStatus (fst r) = place_granted v t /\
                scheduled t (snd r) = [t + PLACE_TIMEOUT]).

(** A [place] lock acquired at [tl] is never seen after [tl + PLACE_TIMEOUT],
    and until it is gone a check is pending for that instant. *)
Definition lease_bounded (w : World) : Prop :=
  forall tl : Z,
    is_lock (interactionStatus (w_model w)) = Some LockPlace ->
    is_time (interactionStatus (w_model w)) = Some tl ->
    tl <= w_clock w <= tl + PLACE_TIMEOUT /\ In (tl + PLACE_TIMEOUT) (w_futures w).

End Derived.

(** ** Concrete data for the scenarios *)

(** Handles named by their ids. *)
Definition named_handles : CroquetData :=
  {| Handle := string; DataId := string;
     Data_toId := fun h => h; Data_fromId := fun i => i |}.

(** A [place:set] payload of client [v] for [page]. *)
Definition place_of (v : string) (page : Z) : PlaceData :=
  {| pd_viewId := v; pd_page := page; pd_top := 0; pd_left := 0;
     pd_scale := ScaleToken "1.0"; pd_rotation := 0; pd_scrollMode := 0 |}.

(** The [load:request] a view [v] publishes for a file it has to upload. *)
Definition upload_of (v h name : string) : LoadRequest :=
  {| lr_viewId := v; lr_sourceHash := h; lr_name := name;
     lr_userDescription := Some (String.append "view " (substring 0 2 v)) |}.

(** The [load:start] that [onLoadApproved] publishes once the upload is done. *)
Definition uploaded_of (v h handle name : string) : @LoadSpec named_handles :=
  @Build_LoadSpec named_handles (Some v) h handle name None.

(** ** More of the view: the pre-flight check and the loading of a document *)

Section ViewChecks.
Context {CD : CroquetData}.

(** [okToPublish(eventName)], on the view's current picture [m] of the model.
    A lock name is a non-empty string, so [!lock] holds exactly when the
    field is absent. *)
Definition okToPublish (v : PDFView) (m : PDFModel) (eventName : string) : bool :=
  match is_lock (interactionStatus m) with
  | None => true
  | Some lock =>
      let isOurs := bool_decide (is_viewId (interactionStatus m) = Some (v_viewId v)) in
      if String.eqb eventName "place" then
        isOurs && negb (bool_decide (lock = LockLoad))
      else if String.eqb eventName "hash" then
        negb (bool_decide (lock = LockLoad) && negb isOurs)
      else true
  end.

(** What [loadFromSourceHash(sourceHash, suppressName)] does once
    [prepareForDocument] has run: the toast it shows and the handle it hands
    to [Data.fetch]; [None] when the destructuring of
    [this.model.knownHandles[sourceHash]] throws. *)
Record DocumentLoad := {
  dl_toast : string;
  dl_fetch : Handle
}.

Definition loadFromSourceHash (m : PDFModel) (sourceHash : string)
    (suppressName : bool) : option DocumentLoad :=
  match knownHandles m !! sourceHash with
  | Some e =>
      Some {| dl_toast := if suppressName then "reading..."
                          else String.append "reading " (he_name e);
              dl_fetch := he_handle e |}
  | None => None
  end.

(** The messages whose handlers assign the place state: [place:set], and
    [load:start] through [resetPlaceParameters]. *)
Definition writes_place (c : Command) : bool :=
  match c with
  | place_set _ | load_start _ => true
  | _ => false
  end.

Definition is_load_start (c : Command) : bool :=
  match c with
  | load_start _ => true
  | _ => false
  end.

(** The messages other than those by which a [load] lock of client [c0] can
    leave: another [requestLoad], a [startLoad], and the holder's own
    [endInteraction] or exit. *)
Definition beside_load (c0 : string) (c : Command) : Prop :=
  match c with
  | place_set _ | rotation_request _ | scrollMode_request _ | future_check => True
  | place_endInteraction v | view_exit v => v <> c0
  | load_request _ | load_start _ => False
  end.

(** The document the model names has a handle. *)
Definition doc_registered (m : PDFModel) : Prop :=
  forall h, docSourceHash m = Some h -> is_Some (knownHandles m !! h).

End ViewChecks.

(** ** JavaScript string and integer primitives used by the upload path *)

(** [x >>> 0]: the value as an unsigned 32-bit integer. *)
Definition to_uint32 (x : Z) : Z := x mod 2 ^ 32.

(** The value as a signed 32-bit integer, as the operands and the result of
    [&] and [~] are. *)
Definition to_int32 (x : Z) : Z := (x + 2 ^ 31) mod 2 ^ 32 - 2 ^ 31.

(** [s.lastIndexOf(c)] for a one-character pattern, scanning from index [i]
    with [acc] the last match so far; [-1] when there is none. *)
Fixpoint lastIndexOf_from (c : ascii) (s : string) (i acc : Z) : Z :=
  match s with
  | EmptyString => acc
  | String a rest => lastIndexOf_from c rest (i + 1) (if Ascii.eqb a c then i else acc)
  end.

Definition lastIndexOf (c : ascii) (s : string) : Z := lastIndexOf_from c s 0 (-1).

(** Whether the character occurs in the string. *)
Fixpoint contains_char (c : ascii) (s : string) : bool :=
  match s with
  | EmptyString => false
  | String a rest => Ascii.eqb a c || contains_char c rest
  end.

(** [s.slice(start)]: from [start], counted from the end when negative, and
    clamped to the string. *)
Definition slice_from (start : Z) (s : string) : string :=
  let len := Z.of_nat (String.length s) in
  let from := if start <? 0 then Z.max (len + start) 0 else Z.min start len in
  substring (Z.to_nat from) (Z.to_nat (len - from)) s.

(** [list.includes(x)] on strings. *)
Definition includes (x : string) (l : list string) : bool :=
  existsb (String.eqb x) l.

(** [set.add(x)] and [set.delete(x)] on a [Set] of strings, kept as the list
    of its elements in insertion order, which is the order of [Array.from]. *)
Definition set_add (x : string) (s : list string) : list string :=
  if includes x s then s else s ++ [x].

Definition set_delete (x : string) (s : list string) : list string :=
  List.filter (fun y => negb (String.eqb y x)) s.

(** ** The list of convertible formats *)

(** One entry of the converter's answer: [{ mime, extension }]. *)
Record Format := {
  fmt_mime : string;
  fmt_extension : string
}.

(** What [fileFormatsP] resolves to. *)
Record FileFormats := {
  ff_types : list string;
  ff_extensions : list string
}.

(** [setUpFileFormats]: [json] is the list of the values of the answer (one
    list of formats per category), or [None] when the answer was not ok or
    the fetch failed. *)
Definition setUpFileFormats (json : option (list (list Format))) : FileFormats :=
  match json with
  | Some categories =>
      let types :=
        fold_left (fun s f => set_add (fmt_mime f) s) (concat categories) [] in
      let extensions :=
        fold_left (fun s f => set_add (fmt_extension f) s) (concat categories) [] in
      {| ff_types := set_delete "application/postscript" types;
         ff_extensions := set_delete "eps" extensions |}
  | None => {| ff_types := []; ff_extensions := [] |}
  end.

(** ** Admission and hashing of a dropped file *)

Section Upload.
Context {CD : CroquetData} {BR : Browser}.

Definition file_name (f : DroppedFile) : string :=
  match f with
  | OSFile name _ _ _ | PojoFile name _ _ _ => name
  end.

(** [file.size]: the byte length of an OS file, the declared property of a
    POJO. *)
Definition file_size (f : DroppedFile) : Z :=
  match f with
  | OSFile _ _ contents _ => Z.of_nat (length contents)
  | PojoFile _ size _ _ => size
  end.

(** [name.slice((name.lastIndexOf(".") - 1 >>> 0) + 2)] *)
Definition file_extension (name : string) : string :=
  slice_from (to_uint32 (lastIndexOf "." name - 1) + 2) name.

(** [isFileDisplayable(file)], given what [fileFormatsP] resolved to. *)
Definition isFileDisplayable (formats : FileFormats) (file : DroppedFile) : bool :=
  if String.prefix "text/" (file_type file) then true
  else
    let extn := file_extension (file_name file) in
    truthy (Some extn) && includes extn (ff_extensions formats).

(** What a call of [uploadFile] leaves behind: the warning toast if any, the
    digest calls made, [this.activeUploader], and the message published. *)
Record UploadOutcome := {
  up_warning : option string;
  up_calls : list PlatformCall;
  up_activeUploader : option FileUploader;
  up_published : option Command
}.

(** [uploadFile(file)].  [v] and [m] are the view and its picture of the
    model when the hash is known.  The digest is a total function here, so
    the [catch] around [getSourceHash] has no counterpart. *)
Definition uploadFile (v : PDFView) (m : PDFModel) (formats : FileFormats)
    (file : DroppedFile) : UploadOutcome :=
  let rejected (warning : string) (calls : list PlatformCall) :=
    {| up_warning := Some warning; up_calls := calls;
       up_activeUploader := None; up_published := None |} in
  if file_size file =? 0 then
    rejected (String.append (file_name file) " has zero length") []
  else if MAX_FILE_MB * 1048576 <? file_size file then
    rejected (String.append (file_name file) " exceeds max size of 50MB") []
  else if negb (isFileDisplayable formats file) then
    rejected (String.append (file_name file) " is not of a known convertible type") []
  else
    let hashed := getSourceHash (newFileUploader file) in
    let sourceHash := snd (fst hashed) in
    if bool_decide (Some sourceHash = v_docSourceHash v) then
      rejected "document is already loaded" (fst (fst hashed))
    else
      {| up_warning := None;
         up_calls := fst (fst hashed);
         up_activeUploader := Some (snd hashed);
         up_published := uploadFile_publish v m sourceHash (file_name file) |}.

End Upload.

(** ** Conversion and storage of the dropped file *)

(** The two services [getPDFHandle] calls: the converter, which answers with
    the converted bytes or fails (an error status, or a failed fetch; the
    code turns both into [null]), and Croquet's [Data.store]. *)
Class UploadServices {CD : CroquetData} := {
  convert_pdf : string -> string -> list Byte.byte -> option (list Byte.byte);
  Data_store : list Byte.byte -> Handle
}.

Section Storing.
Context {CD : CroquetData} {US : UploadServices}.

(** Calls to the services, in order: the file posted to the converter (name,
    type, bytes), the buffer handed to [Data.store]. *)
Inductive ServiceCall :=
| conversion_request (name type : string) (bytes : list Byte.byte)
| data_store (bytes : list Byte.byte).

(** A [FileUploader] with its [pdfHandle] field: [None] while it is
    [undefined], [Some None] when it is [null]. *)
Record HandleUploader := {
  hu_uploader : FileUploader;
  hu_pdfHandle : option (option Handle)
}.

(** [getPDFHandle()] *)
Definition getPDFHandle (u : HandleUploader)
  : list ServiceCall * option Handle * HandleUploader :=
  match hu_pdfHandle u with
  | Some known => ([], known, u)
  | None =>
      let file := fu_file (hu_uploader u) in
      if fu_needsConversion (hu_uploader u) then
        let request :=
          conversion_request (file_name file) (file_type file) (file_bytes file) in
        match convert_pdf (file_name file) (file_type file) (file_bytes file) with
        | None =>
            ([request], None,
             {| hu_uploader := hu_uploader u; hu_pdfHandle := Some None |})
        | Some pdfBuffer =>
            ([request; data_store pdfBuffer], Some (Data_store pdfBuffer),
             {| hu_uploader := hu_uploader u;
                hu_pdfHandle := Some (Some (Data_store pdfBuffer)) |})
        end
      else
        let pdfBuffer := buffer_bytes (getSourceBuffer (hu_uploader u)) in
        ([data_store pdfBuffer], Some (Data_store pdfBuffer),
         {| hu_uploader := hu_uploader u;
            hu_pdfHandle := Some (Some (Data_store pdfBuffer)) |})
  end.

(** [n] calls of [getPDFHandle] in a row, each made once the one before has
    settled: all the service calls, the handles returned, and the uploader
    at the end. *)
Fixpoint getPDFHandle_times (n : nat) (u : HandleUploader)
  : list ServiceCall * list (option Handle) * HandleUploader :=
  match n with
  | O => ([], [], u)
  | S n' =>
      let r := getPDFHandle u in
      let rest := getPDFHandle_times n' (snd r) in
      (fst (fst r) ++ fst (fst rest), snd (fst r) :: snd (fst rest), snd rest)
  end.

End Storing.

(** ** The URL-safe spelling of base64 *)

(** [s.padEnd(target, c)] for a one-character filler. *)
Definition padEnd (target : Z) (c : ascii) (s : string) : string :=
  String.append s
    (string_of_list_ascii
       (repeat c (Z.to_nat (target - Z.of_nat (String.length s))))).

(** What [toBase64url] does to the text [btoa] returned. *)
Definition base64_to_url (base64 : string) : string :=
  replace_all "/"%char "_"
    (replace_all "+"%char "-" (replace_all "="%char "" base64)).

(** The text [fromBase64url(base64)] hands to [atob]:
    [base64.padEnd((base64.length + 3) & ~3, "=").replace(/-/g, "+")
    .replace(/_/g, "/")]. *)
Definition url_to_base64 (base64 : string) : string :=
  let target :=
    to_int32 (Z.land (to_int32 (Z.of_nat (String.length base64) + 3))
                (to_int32 (Z.lnot 3))) in
  replace_all "_"%char "/" (replace_all "-"%char "+" (padEnd target "="%char base64)).

(** [n] padding characters. *)
Definition padding (n : nat) : string := string_of_list_ascii (repeat "="%char n).

(** ** The view's throttle *)

Section Throttle.
Variable F : Type.

(** One entry of [this.throttles]: [{ fn, timeout, lastInvoke }].  A timer
    id is a non-zero number, so [spec.timeout] is truthy exactly while a
    timer is pending. *)
Record ThrottleSpec := {
  ts_fn : option F;
  ts_timeout : bool;
  ts_lastInvoke : option Z
}.

(** [this.throttles]: [undefined] until the first throttled call. *)
Definition Throttles : Type := option (gmap string ThrottleSpec).

Inductive ThrottleEffect :=
| invoke (fn : F)
| setTimeout_throttle (key : string) (delay : Z)
| clearTimeout_throttle (key : string).

(** Truthiness of a number-or-undefined value. *)
Definition truthy_number (v : option Z) : bool :=
  match v with
  | Some n => negb (n =? 0)
  | None => false
  end.

(** [throttledInvoke(key, time, fn)], with [now] the value of [Date.now()]. *)
Definition throttledInvoke (key : string) (time : Z) (fn : F) (now : Z)
    (th : Throttles) : Throttles * list ThrottleEffect :=
  if time =? -1 then (th, [invoke fn])
  else
    let throttles := match th with Some t => t | None => ∅ end in
    let spec :=
      match throttles !! key with
      | Some spec => spec
      | None => {| ts_fn := None; ts_timeout := false; ts_lastInvoke := None |}
      end in
    let spec := {| ts_fn := Some fn; ts_timeout := ts_timeout spec;
                   ts_lastInvoke := ts_lastInvoke spec |} in
    if ts_timeout spec then (Some (<[key := spec]> throttles), [])
    else
      let timeRemaining :=
        match ts_lastInvoke spec with
        | Some lastInvoke =>
            if truthy_number (Some lastInvoke) then lastInvoke + time - now else 0
        | None => 0
        end in
      (Some (<[key := {| ts_fn := ts_fn spec; ts_timeout := true;
                         ts_lastInvoke := ts_lastInvoke spec |}]> throttles),
       [setTimeout_throttle key (Z.max 0 timeRemaining)]).

(** The callback of the timer set by [throttledInvoke], run at [now]; a timer
    that is not pending does not fire. *)
Definition throttle_fires (key : string) (now : Z) (th : Throttles)
  : Throttles * list ThrottleEffect :=
  match th with
  | Some throttles =>
      match throttles !! key with
      | Some spec =>
          if ts_timeout spec then
            (Some (<[key := {| ts_fn := ts_fn spec; ts_timeout := false;
                               ts_lastInvoke := Some now |}]> throttles),
             match ts_fn spec with
             | Some fn => [invoke fn]
             | None => []
             end)
          else (th, [])
      | None => (th, [])
      end
  | None => (th, [])
  end.

(** [clearThrottledInvoke(key)] *)
Definition clearThrottledInvoke (key : string) (th : Throttles)
  : Throttles * list ThrottleEffect :=
  match th with
  | None => (th, [])
  | Some throttles =>
      (Some (delete key throttles),
       match throttles !! key with
       | Some spec => if ts_timeout spec then [clearTimeout_throttle key] else []
       | None => []
       end)
  end.

(** Whether a timer is pending for [key]. *)
Definition throttle_pending (key : string) (th : Throttles) : bool :=
  match th with
  | Some throttles =>
      match throttles !! key with
      | Some spec => ts_timeout spec
      | None => false
      end
  | None => false
  end.

Definition throttle_lastInvoke (key : string) (th : Throttles) : option Z :=
  match th with
  | Some throttles =>
      match throttles !! key with
      | Some spec => ts_lastInvoke spec
      | None => None
      end
  | None => None
  end.

(** Further throttled calls for the same key, each [(time, fn, now)], in
    order. *)
Fixpoint throttled_calls (key : string) (calls : list (Z * F * Z)) (th : Throttles)
  : Throttles * list ThrottleEffect :=
  match calls with
  | [] => (th, [])
  | (time, fn, now) :: rest =>
      let r := throttledInvoke key time fn now th in
      let r' := throttled_calls key rest (fst r) in
      (fst r', snd r ++ snd r')
  end.

End Throttle.

Arguments ts_fn {F}.
Arguments ts_timeout {F}.
Arguments ts_lastInvoke {F}.
Arguments invoke {F}.
Arguments setTimeout_throttle {F}.
Arguments clearTimeout_throttle {F}.
Arguments throttledInvoke {F}.
Arguments throttle_fires {F}.
Arguments clearThrottledInvoke {F}.
Arguments throttle_pending {F}.
Arguments throttle_lastInvoke {F}.
Arguments throttled_calls {F}.

(** The function the pending timer of [key] will invoke. *)
Definition throttle_fn {F : Type} (key : string) (th : Throttles F) : option F :=
  match th with
  | Some throttles =>
      match throttles !! key with
      | Some spec => ts_fn spec
      | None => None
      end
  | None => None
  end.

(** ** The view's busy state *)

(** The fields of [PDFView] that track local activity.  [userIsActive] and
    [syncPlaceOnRelease] are only ever tested for truthiness, so [undefined]
    and [false] are one value; [va_suppressionTimer] says whether the
    500 ms timer is pending; [va_clash] whether the container carries the
    [interactionClash] class. *)
Record ViewActivity := {
  va_viewId : string;
  va_trackingMouseDrag : bool;
  va_userIsActive : bool;
  va_syncPlaceOnRelease : bool;
  va_suppressionTimer : bool;
  va_clash : bool;
  va_lastPublishedPlace : option (Z * Z * Z * Scale * Z * Z)
}.

Inductive ViewEffect :=
| view_publish (scope event : string) (viewId : string)
| syncPlaceWithModel
| clearTimeout_suppression
| setTimeout_suppression (delay : Z).

(** [showClashWarning(bool)] *)
Definition showClashWarning (b : bool) (s : ViewActivity) : ViewActivity :=
  {| va_viewId := va_viewId s; va_trackingMouseDrag := va_trackingMouseDrag s;
     va_userIsActive := va_userIsActive s;
     va_syncPlaceOnRelease := va_syncPlaceOnRelease s;
     va_suppressionTimer := va_suppressionTimer s; va_clash := b;
     va_lastPublishedPlace := va_lastPublishedPlace s |}.

(** [releaseUserActive()] *)
Definition releaseUserActive (s : ViewActivity) : ViewActivity * list ViewEffect :=
  ({| va_viewId := va_viewId s; va_trackingMouseDrag := va_trackingMouseDrag s;
      va_userIsActive := false; va_syncPlaceOnRelease := false;
      va_suppressionTimer := va_suppressionTimer s; va_clash := false;
      va_lastPublishedPlace := va_lastPublishedPlace s |},
   if va_syncPlaceOnRelease s then [syncPlaceWithModel] else []).

(** [docMouseDown(event)]; [counts] says whether the target is the viewer
    container or a text layer. *)
Definition docMouseDown (counts : bool) (s : ViewActivity)
  : ViewActivity * list ViewEffect :=
  if negb counts then (s, [])
  else
    ({| va_viewId := va_viewId s; va_trackingMouseDrag := true;
        va_userIsActive := true; va_syncPlaceOnRelease := false;
        va_suppressionTimer := false; va_clash := va_clash s;
        va_lastPublishedPlace := va_lastPublishedPlace s |},
     if va_suppressionTimer s then [clearTimeout_suppression] else []).

(** [docMouseUp(event)] *)
Definition docMouseUp (s : ViewActivity) : ViewActivity * list ViewEffect :=
  if negb (va_trackingMouseDrag s) then (s, [])
  else
    let s1 :=
      {| va_viewId := va_viewId s; va_trackingMouseDrag := false;
         va_userIsActive := va_userIsActive s;
         va_syncPlaceOnRelease := va_syncPlaceOnRelease s;
         va_suppressionTimer := va_suppressionTimer s; va_clash := va_clash s;
         va_lastPublishedPlace := va_lastPublishedPlace s |} in
    let r := releaseUserActive s1 in
    (fst r, view_publish "scroll" "endInteraction" (va_viewId s) :: snd r).

(** [setOrExtendBusyState()] *)
Definition setOrExtendBusyState (s : ViewActivity) : ViewActivity * list ViewEffect :=
  ({| va_viewId := va_viewId s; va_trackingMouseDrag := va_trackingMouseDrag s;
      va_userIsActive := true;
      va_syncPlaceOnRelease :=
        if va_userIsActive s then va_syncPlaceOnRelease s else false;
      va_suppressionTimer := true; va_clash := va_clash s;
      va_lastPublishedPlace := va_lastPublishedPlace s |},
   (if va_suppressionTimer s then [clearTimeout_suppression] else [])
   ++ [setTimeout_suppression 500]).

(** The callback of the timer set by [setOrExtendBusyState]; a timer that is
    not pending does not fire. *)
Definition suppression_fires (s : ViewActivity) : ViewActivity * list ViewEffect :=
  if va_suppressionTimer s then
    releaseUserActive
      {| va_viewId := va_viewId s; va_trackingMouseDrag := va_trackingMouseDrag s;
         va_userIsActive := va_userIsActive s;
         va_syncPlaceOnRelease := va_syncPlaceOnRelease s;
         va_suppressionTimer := false; va_clash := va_clash s;
         va_lastPublishedPlace := va_lastPublishedPlace s |}
  else (s, []).

(** [onUpdatePlace(viewId)] *)
Definition onUpdatePlace (viewId : string) (s : ViewActivity)
  : ViewActivity * list ViewEffect :=
  if String.eqb (va_viewId s) viewId then
    ({| va_viewId := va_viewId s; va_trackingMouseDrag := va_trackingMouseDrag s;
        va_userIsActive := va_userIsActive s; va_syncPlaceOnRelease := false;
        va_suppressionTimer := va_suppressionTimer s; va_clash := false;
        va_lastPublishedPlace := va_lastPublishedPlace s |}, [])
  else if va_userIsActive s then
    ({| va_viewId := va_viewId s; va_trackingMouseDrag := va_trackingMouseDrag s;
        va_userIsActive := va_userIsActive s; va_syncPlaceOnRelease := true;
        va_suppressionTimer := va_suppressionTimer s; va_clash := true;
        va_lastPublishedPlace := None |}, [])
  else
    ({| va_viewId := va_viewId s; va_trackingMouseDrag := va_trackingMouseDrag s;
        va_userIsActive := va_userIsActive s;
        va_syncPlaceOnRelease := va_syncPlaceOnRelease s;
        va_suppressionTimer := va_suppressionTimer s; va_clash := va_clash s;
        va_lastPublishedPlace := None |}, [syncPlaceWithModel]).

(** The first branch of [publishPlaceIfNew()], taken when [okToPublish] says
    no: the clash warning is shown and nothing is published. *)
Definition publishPlace_refused (s : ViewActivity) : ViewActivity * list ViewEffect :=
  (showClashWarning true s, []).

(** What [onLoadApproved(data)] does to these fields: its first statement
    ends the tracking of a drag, and [closeDocument], through
    [resetPlaceParameters], clears the anti-duplication record. *)
Definition onLoadApproved_activity (s : ViewActivity) : ViewActivity * list ViewEffect :=
  ({| va_viewId := va_viewId s; va_trackingMouseDrag := false;
      va_userIsActive := va_userIsActive s;
      va_syncPlaceOnRelease := va_syncPlaceOnRelease s;
      va_suppressionTimer := va_suppressionTimer s; va_clash := va_clash s;
      va_lastPublishedPlace := None |}, []).

(** What happens at the view, as far as its busy state goes.  A publication
    that [publishPlaceIfNew] lets through writes [lastPublishedPlace] only,
    from the renderer's geometry, and is not among the events. *)
Inductive ViewEvent :=
| mouse_down (counts : bool)
| mouse_up
| local_move
| quiet_period_over
| place_update (viewId : string)
| publish_refused
| load_approved.

Definition view_step (e : ViewEvent) (s : ViewActivity)
  : ViewActivity * list ViewEffect :=
  match e with
  | mouse_down counts => docMouseDown counts s
  | mouse_up => docMouseUp s
  | local_move => setOrExtendBusyState s
  | quiet_period_over => suppression_fires s
  | place_update viewId => onUpdatePlace viewId s
  | publish_refused => publishPlace_refused s
  | load_approved => onLoadApproved_activity s
  end.

Fixpoint view_run (events : list ViewEvent) (s : ViewActivity)
  : ViewActivity * list ViewEffect :=
  match events with
  | [] => (s, [])
  | e :: rest =>
      let r := view_step e s in
      let r' := view_run rest (fst r) in
      (fst r', snd r ++ snd r')
  end.

(** The busy state the constructor leaves. *)
Definition view_start (viewId : string) : ViewActivity :=
  {| va_viewId := viewId; va_trackingMouseDrag := false; va_userIsActive := false;
     va_syncPlaceOnRelease := false; va_suppressionTimer := false;
     va_clash := false; va_lastPublishedPlace := None |}.

(** Events during which the view stays busy and hears of no move of its own:
    local moves, refused publications, and place updates of other views. *)
Definition keeps_busy (own : string) (e : ViewEvent) : Prop :=
  match e with
  | local_move | publish_refused => True
  | place_update viewId => viewId <> own
  | mouse_down _ | mouse_up | quiet_period_over | load_approved => False
  end.

(** The methods of [PDFModel] that [init] subscribes. *)
Inductive ModelHandler :=
| h_requestLoad
| h_startLoad
| h_setPlace
| h_endInteraction
| h_requestRotation
| h_requestScrollMode
| h_onViewExit.

(** The subscriptions [PDFModel.init] makes, in order: scope, event and
    handler. *)
Definition model_subscriptions (sessionId : string)
  : list (string * string * ModelHandler) :=
  [("load", "request", h_requestLoad);
   ("load", "start", h_startLoad);
   ("place", "set", h_setPlace);
   ("place", "endInteraction", h_endInteraction);
   ("rotation", "request", h_requestRotation);
   ("scrollMode", "request", h_requestScrollMode);
   (sessionId, "view-exit", h_onViewExit)].

(** Modelled from the spec: a published message is delivered to the handlers
    subscribed to its scope and its event, and to no other. *)
Definition subscribed_handlers (sessionId scope event : string) : list ModelHandler :=
  map snd
    (List.filter (fun sub => String.eqb (fst (fst sub)) scope
                             && String.eqb (snd (fst sub)) event)
       (model_subscriptions sessionId)).

(** ** The platform's digest and base64 *)

(** [crypto.subtle.digest] and [btoa] are the browser's, not code of the
    viewer; the uploader is verified against any [Browser].  The definitions
    below give the one a browser provides, SHA-256 as FIPS 180-4 defines it
    and base64 as RFC 4648 does, so that what is proved of every platform can
    be read off at the real one. *)

(** 32-bit words as numbers below 2^32. *)
Definition word_add (a b : Z) : Z := (a + b) mod 2 ^ 32.

Definition rotr (n x : Z) : Z :=
  Z.lor (Z.shiftr x n) (Z.shiftl x (32 - n) mod 2 ^ 32).

Definition sha_ch (x y z : Z) : Z :=
  Z.lxor (Z.land x y) (Z.land (2 ^ 32 - 1 - x) z).

Definition sha_maj (x y z : Z) : Z :=
  Z.lxor (Z.lxor (Z.land x y) (Z.land x z)) (Z.land y z).

Definition big_sigma0 (x : Z) : Z := Z.lxor (Z.lxor (rotr 2 x) (rotr 13 x)) (rotr 22 x).
Definition big_sigma1 (x : Z) : Z := Z.lxor (Z.lxor (rotr 6 x) (rotr 11 x)) (rotr 25 x).
Definition small_sigma0 (x : Z) : Z := Z.lxor (Z.lxor (rotr 7 x) (rotr 18 x)) (Z.shiftr x 3).
Definition small_sigma1 (x : Z) : Z := Z.lxor (Z.lxor (rotr 17 x) (rotr 19 x)) (Z.shiftr x 10).

(** The primes below 312, the first sixty-four. *)
Definition is_prime (n : nat) : bool :=
  forallb (fun d => negb (Nat.eqb (n mod d) 0)) (seq 2 (n - 2)).

Definition sha_primes : list Z :=
  map Z.of_nat (List.filter is_prime (seq 2 310)).

(** The largest [r] below [2 ^ bits] whose cube is at most [n]. *)
Fixpoint cube_root (bits : nat) (n r : Z) : Z :=
  match bits with
  | O => r
  | S bits' =>
      let r' := r + 2 ^ Z.of_nat bits' in
      cube_root bits' n (if r' * r' * r' <=? n then r' else r)
  end.

(** The round constants: the first 32 bits of the fractional parts of the
    cube roots of the primes. *)
Definition sha_K : list Z :=
  map (fun p => cube_root 36 (p * 2 ^ 96) 0 mod 2 ^ 32) sha_primes.

(** The initial hash value: the first 32 bits of the fractional parts of the
    square roots of the first eight primes. *)
Definition sha_H0 : list Z :=
  map (fun p => Z.sqrt (p * 2 ^ 64) mod 2 ^ 32) (firstn 8 sha_primes).

(** The message followed by the bit 1, zeros, and its length in bits as a
    64-bit big-endian number, to a multiple of 64 bytes. *)
Definition big_endian (width : nat) (x : Z) : list Z :=
  map (fun i => Z.shiftr x (8 * Z.of_nat i) mod 256) (rev (seq 0 width)).

Definition sha_pad (msg : list Z) : list Z :=
  let len := Z.of_nat (length msg) in
  let zeros := Z.to_nat ((55 - len) mod 64) in
  msg ++ [128] ++ repeat 0 zeros ++ big_endian 8 (8 * len).

Fixpoint words_of (bytes : list Z) : list Z :=
  match bytes with
  | a :: b :: c :: d :: rest =>
      (Z.shiftl a 24 + Z.shiftl b 16 + Z.shiftl c 8 + d) :: words_of rest
  | _ => []
  end.

(** The message schedule: [n] more words after those of [w]. *)
Fixpoint sha_schedule (n : nat) (w : list Z) : list Z :=
  match n with
  | O => w
  | S n' =>
      let at_ (back : nat) := nth (length w - back) w 0 in
      sha_schedule n'
        (w ++ [word_add (word_add (small_sigma1 (at_ 2%nat)) (at_ 7%nat))
                 (word_add (small_sigma0 (at_ 15%nat)) (at_ 16%nat))])
  end.

Definition sha_round (s : list Z) (kw : Z * Z) : list Z :=
  match s with
  | [a; b; c; d; e; f; g; h] =>
      let t1 := word_add (word_add (word_add h (big_sigma1 e))
                            (word_add (sha_ch e f g) (fst kw))) (snd kw) in
      let t2 := word_add (big_sigma0 a) (sha_maj a b c) in
      [word_add t1 t2; a; b; c; word_add d t1; e; f; g]
  | _ => s
  end.

Definition sha_block (h : list Z) (block : list Z) : list Z :=
  let w := sha_schedule 48 (words_of block) in
  let s := fold_left sha_round (combine sha_K w) h in
  map (fun p => word_add (fst p) (snd p)) (combine h s).

Fixpoint sha_blocks (n : nat) (h : list Z) (bytes : list Z) : list Z :=
  match n with
  | O => h
  | S n' => sha_blocks n' (sha_block h (firstn 64 bytes)) (skipn 64 bytes)
  end.

Definition byte_of_Z (x : Z) : Byte.byte := byte_of_ascii (ascii_of_N (Z.to_N x)).
Definition Z_of_byte (b : Byte.byte) : Z := Z.of_N (Byte.to_N b).

(** SHA-256 as FIPS 180-4 defines it: what
    [crypto.subtle.digest("SHA-256", buffer)] resolves to. *)
Definition sha256 (bytes : list Byte.byte) : list Byte.byte :=
  let padded := sha_pad (map Z_of_byte bytes) in
  let h := sha_blocks (length padded / 64) sha_H0 padded in
  map byte_of_Z (concat (map (big_endian 4) h)).

Definition base64_alphabet : string :=
  "ABCDEFGHIJKLMNOPQRSTUVWXYZabcdefghijklmnopqrstuvwxyz0123456789+/".

Definition base64_char (x : Z) : ascii :=
  match String.get (Z.to_nat (x mod 64)) base64_alphabet with
  | Some c => c
  | None => "="%char
  end.

Fixpoint base64_of (bytes : list Z) : string :=
  match bytes with
  | [] => ""
  | [a] =>
      String (base64_char (Z.shiftr a 2))
        (String (base64_char (Z.shiftl a 4)) "==")
  | [a; b] =>
      String (base64_char (Z.shiftr a 2))
        (String (base64_char (Z.shiftl a 4 + Z.shiftr b 4))
           (String (base64_char (Z.shiftl b 2)) "="))
  | a :: b :: c :: rest =>
      String (base64_char (Z.shiftr a 2))
        (String (base64_char (Z.shiftl a 4 + Z.shiftr b 4))
           (String (base64_char (Z.shiftl b 2 + Z.shiftr c 6))
              (String (base64_char c) (base64_of rest))))
  end.

(** Base64 as RFC 4648 defines it: what
    [btoa(String.fromCharCode(...new Uint8Array(bits)))] returns. *)
Definition base64 (bytes : list Byte.byte) : string := base64_of (map Z_of_byte bytes).

(** The platform of a browser. *)
Definition web_platform : Browser :=
  {| subtle_digest_SHA256 := sha256; btoa_bytes := base64 |}.

(** ** A view's message on its way to the model *)

Section Delivery.
Context {CD : CroquetData}.

(** The message a subscribed handler runs on when the payload is a bare view
    id.  [endInteraction] and [onViewExit] take one; the other handlers
    destructure an object, and a view id sent to them is outside this
    model. *)
Definition viewId_command (h : ModelHandler) (viewId : string) : option Command :=
  match h with
  | h_endInteraction => Some (place_endInteraction viewId)
  | h_onViewExit => Some (view_exit viewId)
  | h_requestLoad | h_startLoad | h_setPlace | h_requestRotation
  | h_requestScrollMode => None
  end.

Fixpoint run_handlers (t : Z) (handlers : list ModelHandler) (viewId : string)
    (m : PDFModel) : option (PDFModel * list Effect) :=
  match handlers with
  | [] => Some (m, [])
  | h :: rest =>
      match viewId_command h viewId with
      | Some c =>
          match run_handlers t rest viewId (fst (deliver t c m)) with
          | Some (m', out) => Some (m', snd (deliver t c m) ++ out)
          | None => None
          end
      | None => None
      end
  end.

(** Modelled from the spec: [publish(scope, event, viewId)] from a view,
    arriving at the model at time [t], runs the handlers subscribed to that
    scope and event, in the order of their subscription. *)
Definition deliver_viewId_message (sessionId : string) (t : Z) (scope event : string)
    (viewId : string) (m : PDFModel) : option (PDFModel * list Effect) :=
  run_handlers t (subscribed_handlers sessionId scope event) viewId m.

End Delivery.

(** * Properties *)

Section Properties.
Context {CD : CroquetData}.

(** Unfolds a handler down to its conditionals. *)
Ltac step_handler :=
  cbv [deliver dispatch requestLoad startLoad setPlace applyPlace endInteraction
       requestRotation requestScrollMode onViewExit checkInteractionStatus
       applyLockIfAvailable releaseInteractionStatus resetPlaceParameters
       bind ret this this_now assign emit];
  cbn [fst snd negb app
       lq_viewId lq_sourceHash lq_lock].

(** ** requestLoad *)

(** C2. [requestLoad] is rejected, leaving the model as it was and emitting
    nothing, exactly when the current lock is a [load] lock for the same
    content hash; in every other state the lock becomes a [load] lock for
    that hash held by the requester, acquired now, nothing else changes, and
    [load:approved] is emitted. *)
Theorem requestLoad_rejected_iff_same_hash_loading (t : Z) (data : LoadRequest) (m : PDFModel) :
  let st := interactionStatus m in
  let duplicate :=
    is_lock st = Some LockLoad /\ is_sourceHash st = Some (lr_sourceHash data) in
  (duplicate /\ deliver t (load_request data) m = (m, []))
  \/
  (~ duplicate /\
   deliver t (load_request data) m =
     (set_interactionStatus
        {| is_viewId := Some (lr_viewId data);
           is_lock := Some LockLoad;
           is_sourceHash := Some (lr_sourceHash data);
           is_time := Some t |} m,
      [publish_load_approved data])).
Proof.
  intros st duplicate. subst st duplicate. step_handler.
  destruct (bool_decide (is_lock (interactionStatus m) = Some LockLoad)) eqn:Hk;
    destruct (bool_decide (is_sourceHash (interactionStatus m)
                           = Some (lr_sourceHash data))) eqn:Hh;
    cbn [andb fst snd negb app].
  - apply bool_decide_eq_true in Hk, Hh. left. auto.
  - apply bool_decide_eq_false in Hh. right. split; [tauto | reflexivity].
  - apply bool_decide_eq_false in Hk. right. split; [tauto | reflexivity].
  - apply bool_decide_eq_false in Hk. right. split; [tauto | reflexivity].
Qed.

(** ** The place lock class *)

Lemma truthy_Some (s : string) : truthy (Some s) = true <-> s <> "".
Proof.
  cbn [truthy]. rewrite negb_true_iff. apply String.eqb_neq.
Qed.

Lemma place_available_wf (c : string) (st : InteractionStatus) :
  status_wf st ->
  (place_available c st = true <->
   unlocked st \/ (is_lock st = Some LockPlace /\ is_viewId st = Some c)).
Proof.
  intros [Hu | (h & k & t & Hne & Hv & Hk & Ht & Hs)].
  - unfold unlocked in Hu. subst st. split; [intros _; left; reflexivity | reflexivity].
  - unfold place_available, unlocked. rewrite Hv, Hk.
    apply truthy_Some in Hne. rewrite Hne. cbn [andb].
    rewrite negb_true_iff, orb_false_iff, !negb_false_iff, !bool_decide_eq_true.
    split.
    + intros [H1 H2]. right. split; congruence.
    + intros [Hu | [H1 H2]]; [| split; congruence].
      subst st. discriminate.
Qed.

Lemma deliver_place_set (t : Z) (data : PlaceData) (m : PDFModel) :
  deliver t (place_set data) m =
  if place_available (pd_viewId data) (interactionStatus m) then
    ({| scroll := {| scroll_page := Some (pd_page data);
                     scroll_top := pd_top data;
                     scroll_left := pd_left data |};
        relativeScale := pd_scale data;
        pagesRotation := pd_rotation data;
        scrollMode := pd_scrollMode data;
        interactionStatus := place_granted (pd_viewId data) t;
        knownHandles := knownHandles m;
        docSourceHash := docSourceHash m |},
     [future_checkInteractionStatus PLACE_TIMEOUT;
      publish_place_update (pd_viewId data)])
  else (m, []).
Proof.
  unfold place_available. step_handler.
  destruct (truthy (is_viewId (interactionStatus m))
            && (negb (bool_decide (is_viewId (interactionStatus m)
                                   = Some (pd_viewId data)))
                || negb (bool_decide (is_lock (interactionStatus m)
                                      = Some LockPlace))));
    reflexivity.
Qed.

Lemma deliver_rotation_request (t : Z) (data : RotationRequest) (m : PDFModel) :
  deliver t (rotation_request data) m =
  if place_available (rr_viewId data) (interactionStatus m) then
    (set_interactionStatus (place_granted (rr_viewId data) t) m,
     [future_checkInteractionStatus PLACE_TIMEOUT;
      publish_rotation_approved data])
  else (m, []).
Proof.
  unfold place_available. step_handler.
  destruct (truthy (is_viewId (interactionStatus m))
            && (negb (bool_decide (is_viewId (interactionStatus m)
                                   = Some (rr_viewId data)))
                || negb (bool_decide (is_lock (interactionStatus m)
                                      = Some LockPlace))));
    reflexivity.
Qed.

Lemma deliver_scrollMode_request (t : Z) (data : ScrollModeRequest) (m : PDFModel) :
  deliver t (scrollMode_request data) m =
  if place_available (sr_viewId data) (interactionStatus m) then
    (set_interactionStatus (place_granted (sr_viewId data) t) m,
     [future_checkInteractionStatus PLACE_TIMEOUT;
      publish_scrollMode_approved data])
  else (m, []).
Proof.
  unfold place_available. step_handler.
  destruct (truthy (is_viewId (interactionStatus m))
            && (negb (bool_decide (is_viewId (interactionStatus m)
                                   = Some (sr_viewId data)))
                || negb (bool_decide (is_lock (interactionStatus m)
                                      = Some LockPlace))));
    reflexivity.
Qed.

(** C5. In a state whose lock record is well formed, [setPlace] is granted
    exactly when no lock is held or the lock is a [place] lock of the same
    client.  When granted, the lock is a [place] lock of that client acquired
    now, the expiry check is scheduled, all six fields of the payload replace
    the place state, and [place:update] carries the client's id; otherwise
    the model is unchanged and nothing is emitted. *)
Theorem setPlace_granted_iff_free_or_own_place (t : Z) (data : PlaceData) (m : PDFModel) :
  status_wf (interactionStatus m) ->
  let st := interactionStatus m in
  let c := pd_viewId data in
  let available :=
    unlocked st \/ (is_lock st = Some LockPlace /\ is_viewId st = Some c) in
  (available /\
   deliver t (place_set data) m =
     ({| scroll := {| scroll_page := Some (pd_page data);
                      scroll_top := pd_top data;
                      scroll_left := pd_left data |};
         relativeScale := pd_scale data;
         pagesRotation := pd_rotation data;
         scrollMode := pd_scrollMode data;
         interactionStatus :=
           {| is_viewId := Some c; is_lock := Some LockPlace;
              is_sourceHash := None; is_time := Some t |};
         knownHandles := knownHandles m;
         docSourceHash := docSourceHash m |},
      [future_checkInteractionStatus PLACE_TIMEOUT; publish_place_update c]))
  \/
  (~ available /\ deliver t (place_set data) m = (m, [])).
Proof.
  intros Hwf st c available. subst st c available.
  rewrite deliver_place_set.
  pose proof (place_available_wf (pd_viewId data) _ Hwf) as Hav.
  destruct (place_available (pd_viewId data) (interactionStatus m)).
  - left. split; [apply Hav; reflexivity | reflexivity].
  - right. split; [| reflexivity].
    intros H. apply Hav in H. discriminate.
Qed.

(** ** What each message does, as one equation per handler *)

Lemma deliver_load_request (t : Z) (data : LoadRequest) (m : PDFModel) :
  deliver t (load_request data) m =
  if bool_decide (is_lock (interactionStatus m) = Some LockLoad)
     && bool_decide (is_sourceHash (interactionStatus m) = Some (lr_sourceHash data))
  then (m, [])
  else (set_interactionStatus
          (load_granted (lr_viewId data) (lr_sourceHash data) t) m,
        [publish_load_approved data]).
Proof.
  step_handler.
  destruct (bool_decide (is_lock (interactionStatus m) = Some LockLoad)
            && bool_decide (is_sourceHash (interactionStatus m)
                            = Some (lr_sourceHash data)));
    reflexivity.
Qed.

Lemma deliver_load_start (t : Z) (data : LoadSpec) (m : PDFModel) :
  deliver t (load_start data) m =
  if superseded data m then
    (set_knownHandles (registered data m) m,
     [console_log (String.append "PDFModel: ignoring superseded load of "
                     (ls_name data))])
  else
    (loaded data m,
     [persistSession (getPersistedData (loaded data m));
      publish_load_ready (ls_viewId data) (ls_sourceHash data) (ls_name data)
        (ls_userDescription data)]).
Proof.
  unfold superseded, loaded, registered. step_handler.
  destruct (bool_decide (is_Some (knownHandles m !! ls_sourceHash data)));
    cbn [negb fst snd app];
    destruct (truthy (ls_userDescription data)); cbn [negb andb fst snd app];
    try reflexivity;
    cbn [set_knownHandles interactionStatus];
    destruct (bool_decide (Some (ls_sourceHash data)
                           = is_sourceHash (interactionStatus m)));
    cbn [negb fst snd app]; try reflexivity;
    destruct m; reflexivity.
Qed.

Lemma deliver_endInteraction (t : Z) (v : string) (m : PDFModel) :
  deliver t (place_endInteraction v) m =
  if bool_decide (is_viewId (interactionStatus m) = Some v)
  then (set_interactionStatus emptyStatus m, [])
  else (m, []).
Proof.
  step_handler.
  destruct (bool_decide (is_viewId (interactionStatus m) = Some v)); reflexivity.
Qed.

Lemma deliver_view_exit (t : Z) (v : string) (m : PDFModel) :
  deliver t (view_exit v) m =
  if bool_decide (is_viewId (interactionStatus m) = Some v)
  then (set_interactionStatus emptyStatus m, [])
  else (m, []).
Proof.
  step_handler.
  destruct (bool_decide (is_viewId (interactionStatus m) = Some v)); reflexivity.
Qed.

Lemma deliver_future_check (t : Z) (m : PDFModel) :
  deliver t future_check m =
  if lease_expired t (interactionStatus m)
  then (set_interactionStatus emptyStatus m, [])
  else (m, []).
Proof.
  unfold lease_expired. step_handler.
  destruct (bool_decide (is_lock (interactionStatus m) = Some LockPlace)
            && match is_time (interactionStatus m) with
               | Some time => t - time =? PLACE_TIMEOUT
               | None => false
               end);
    reflexivity.
Qed.

Lemma lease_expired_iff (t : Z) (st : InteractionStatus) :
  lease_expired t st = true <->
  is_lock st = Some LockPlace /\ is_time st = Some (t - PLACE_TIMEOUT).
Proof.
  unfold lease_expired. rewrite andb_true_iff, bool_decide_eq_true.
  destruct (is_time st) as [time |].
  - rewrite Z.eqb_eq. split; intros [H1 H2]; split; auto.
    + f_equal. lia.
    + injection H2 as ->. lia.
  - split; intros [H1 H2]; discriminate.
Qed.

(** C7 (as amended). Neither [requestRotation] nor [requestScrollMode] writes
    the place state: approved or not, [scroll], [relativeScale],
    [pagesRotation] and [scrollMode] are as before.  When the place lock is
    available to the requester it is acquired or refreshed and the handler's
    own approval event, carrying the request, is emitted next to the
    scheduled expiry check, and no [place:update]; when it is not, the model
    is unchanged and nothing is emitted. *)
Theorem requestRotation_requestScrollMode_leave_placeState (t : Z) (m : PDFModel) :
  (forall data : RotationRequest,
      let r := deliver t (rotation_request data) m in
      placeState (fst r) = placeState m /\
      ((place_available (rr_viewId data) (interactionStatus m) = true /\
        interactionStatus (fst r) = place_granted (rr_viewId data) t /\
        snd r = [future_checkInteractionStatus PLACE_TIMEOUT;
                 publish_rotation_approved data])
       \/
       (place_available (rr_viewId data) (interactionStatus m) = false /\
        r = (m, []))))
  /\
  (forall data : ScrollModeRequest,
      let r := deliver t (scrollMode_request data) m in
      placeState (fst r) = placeState m /\
      ((place_available (sr_viewId data) (interactionStatus m) = true /\
        interactionStatus (fst r) = place_granted (sr_viewId data) t /\
        snd r = [future_checkInteractionStatus PLACE_TIMEOUT;
                 publish_scrollMode_approved data])
       \/
       (place_available (sr_viewId data) (interactionStatus m) = false /\
        r = (m, [])))).
Proof.
  split; intros data r; subst r.
  - rewrite deliver_rotation_request.
    destruct (place_available (rr_viewId data) (interactionStatus m)).
    + split; [reflexivity | left; repeat split].
    + split; [reflexivity | right; repeat split].
  - rewrite deliver_scrollMode_request.
    destruct (place_available (sr_viewId data) (interactionStatus m)).
    + split; [reflexivity | left; repeat split].
    + split; [reflexivity | right; repeat split].
Qed.

(** ** The single-lock invariant *)

Lemma unlocked_wf : status_wf emptyStatus.
Proof. left. reflexivity. Qed.

Lemma place_granted_wf (c : string) (t : Z) : c <> "" -> status_wf (place_granted c t).
Proof.
  intros Hc. right. exists c, LockPlace, t. repeat split; auto.
Qed.

Lemma load_granted_wf (c h : string) (t : Z) : c <> "" -> status_wf (load_granted c h t).
Proof.
  intros Hc. right. exists c, LockLoad, t. repeat split; eauto.
Qed.

Lemma deliver_status_wf (t : Z) (c : Command) (m : PDFModel) :
  status_wf (interactionStatus m) -> command_wf c ->
  status_wf (interactionStatus (fst (deliver t c m))).
Proof.
  intros Hwf Hc. destruct c as [d | d | d | v | d | d | v |]; cbn [command_wf] in Hc.
  - rewrite deliver_load_request.
    destruct (_ && _); cbn; [assumption | apply load_granted_wf; assumption].
  - rewrite deliver_load_start.
    destruct (superseded d m); cbn; [assumption | apply unlocked_wf].
  - rewrite deliver_place_set.
    destruct (place_available _ _); cbn; [apply place_granted_wf |]; assumption.
  - rewrite deliver_endInteraction.
    destruct (bool_decide _); cbn; [apply unlocked_wf | assumption].
  - rewrite deliver_rotation_request.
    destruct (place_available _ _); cbn; [apply place_granted_wf |]; assumption.
  - rewrite deliver_scrollMode_request.
    destruct (place_available _ _); cbn; [apply place_granted_wf |]; assumption.
  - rewrite deliver_view_exit.
    destruct (bool_decide _); cbn; [apply unlocked_wf | assumption].
  - rewrite deliver_future_check.
    destruct (lease_expired _ _); cbn; [apply unlocked_wf | assumption].
Qed.

Lemma run_status_wf (log : list (Z * Command)) (m : PDFModel) :
  status_wf (interactionStatus m) -> log_wf log ->
  status_wf (interactionStatus (run log m)).
Proof.
  revert m. induction log as [| [t c] rest IH]; intros m Hwf Hlog; cbn [run].
  - assumption.
  - inversion Hlog as [| ? ? Hc Hrest]; subst.
    apply IH; [| assumption].
    apply deliver_status_wf; assumption.
Qed.

Lemma restoreFromPersisted_unlocked (p : Persisted) (t : Z) (m m0 : PDFModel)
    (out : list Effect) :
  interactionStatus m = emptyStatus ->
  restoreFromPersisted p t m = Some (m0, out) ->
  interactionStatus m0 = emptyStatus /\ last_approved None out = None
  /\ scheduled t out = [].
Proof.
  intros Hm. unfold restoreFromPersisted.
  destruct (p_docSourceHash p) as [h |].
  - destruct (truthy (Some h)) eqn:Htr.
    + destruct (_ !! h) as [e |]; [| discriminate].
      change (startLoad ?d t ?m1) with (dispatch (load_start d) t m1).
      match goal with
      | |- Some (snd (fst (dispatch ?c t ?m1)), snd (dispatch ?c t ?m1)) = _ -> _ =>
          change (Some (snd (fst (dispatch c t m1)), snd (dispatch c t m1)))
            with (Some (deliver t c m1))
      end.
      rewrite deliver_load_start. unfold superseded.
      cbn [ls_userDescription]. change (truthy (Some "recovered session")) with true.
      cbn [negb andb]. intros [= <- <-]. repeat split.
    + intros [= <- <-]. repeat split. assumption.
  - intros [= <- <-]. repeat split. assumption.
Qed.

Lemma init_unlocked (persisted : option Persisted) (t : Z) (m0 : PDFModel)
    (out : list Effect) :
  init persisted t = Some (m0, out) ->
  interactionStatus m0 = emptyStatus /\ last_approved None out = None
  /\ scheduled t out = [].
Proof.
  unfold init. destruct persisted as [p |].
  - apply restoreFromPersisted_unlocked. reflexivity.
  - intros [= <- <-]. repeat split.
Qed.

Lemma status_wf_kind_iff_holder (st : InteractionStatus) :
  status_wf st -> (is_lock st = None <-> is_viewId st = None).
Proof.
  intros [Hu | (c & k & t & _ & Hv & Hk & _)].
  - unfold unlocked in Hu. subst st. split; reflexivity.
  - rewrite Hv, Hk. split; discriminate.
Qed.

Lemma place_unavailable_to_others (h c : string) (st : InteractionStatus) :
  status_wf st -> is_lock st = Some LockPlace -> is_viewId st = Some h ->
  c <> h -> place_available c st = false.
Proof.
  intros Hwf Hk Hv Hne.
  destruct (place_available c st) eqn:Hav; [| reflexivity].
  apply (place_available_wf c st Hwf) in Hav as [Hu | [_ Hc]].
  - unfold unlocked in Hu. subst st. discriminate.
  - congruence.
Qed.

(** C1. From the initial state of the model (fresh or restored from a
    snapshot) and after any log of messages carrying non-empty client ids,
    the lock record is either empty or one record with one non-empty holder,
    one kind and one acquisition time; its kind is absent exactly when its
    holder is; and while it is a [place] lock, a [setPlace],
    [requestRotation] or [requestScrollMode] that has any effect at all, on
    the state or as an emitted event, carries the holder's id. *)
Theorem single_lock_holder (persisted : option Persisted) (t0 : Z) (m0 : PDFModel)
    (out0 : list Effect) (log : list (Z * Command)) :
  init persisted t0 = Some (m0, out0) ->
  log_wf log ->
  let st := interactionStatus (run log m0) in
  (unlocked st \/ held st) /\
  (is_lock st = None <-> is_viewId st = None) /\
  (forall (h : string) (t : Z) (c : Command),
      is_lock st = Some LockPlace -> is_viewId st = Some h ->
      place_class c = true ->
      deliver t c (run log m0) <> (run log m0, []) ->
      command_viewId c = Some h).
Proof.
  intros Hinit Hlog st.
  assert (Hwf : status_wf st).
  { apply run_status_wf; [| assumption].
    apply init_unlocked in Hinit as [-> _]. apply unlocked_wf. }
  split; [exact Hwf |]. split; [apply status_wf_kind_iff_holder, Hwf |].
  intros h t c Hk Hv Hclass Heff.
  destruct c as [d | d | d | v | d | d | v |]; try discriminate Hclass;
    cbn [command_viewId]; f_equal.
  - destruct (decide (pd_viewId d = h)) as [| Hne]; [assumption | exfalso].
    apply Heff. rewrite deliver_place_set.
    fold st. rewrite (place_unavailable_to_others h _ st Hwf Hk Hv Hne).
    reflexivity.
  - destruct (decide (rr_viewId d = h)) as [| Hne]; [assumption | exfalso].
    apply Heff. rewrite deliver_rotation_request.
    fold st. rewrite (place_unavailable_to_others h _ st Hwf Hk Hv Hne).
    reflexivity.
  - destruct (decide (sr_viewId d = h)) as [| Hne]; [assumption | exfalso].
    apply Heff. rewrite deliver_scrollMode_request.
    fold st. rewrite (place_unavailable_to_others h _ st Hwf Hk Hv Hne).
    reflexivity.
Qed.

(** ** Supersession of a late startLoad *)

Lemma last_approved_app (last : option string) (a b : list Effect) :
  last_approved last (a ++ b) = last_approved (last_approved last a) b.
Proof.
  revert last. induction a as [| e a IH]; intros last; [reflexivity |].
  destruct e; cbn [app last_approved]; apply IH.
Qed.

Lemma deliver_pending_is_last_approved (t : Z) (c : Command) (m : PDFModel)
    (last : option string) :
  pending_is_last_approved m last ->
  pending_is_last_approved (fst (deliver t c m))
    (last_approved last (snd (deliver t c m))).
Proof.
  unfold pending_is_last_approved. intros Hinv.
  destruct c as [d | d | d | v | d | d | v |].
  - rewrite deliver_load_request. destruct (_ && _); cbn; auto.
  - rewrite deliver_load_start. destruct (superseded d m); cbn; auto.
  - rewrite deliver_place_set. destruct (place_available _ _); cbn; auto.
  - rewrite deliver_endInteraction. destruct (bool_decide _); cbn; auto.
  - rewrite deliver_rotation_request. destruct (place_available _ _); cbn; auto.
  - rewrite deliver_scrollMode_request. destruct (place_available _ _); cbn; auto.
  - rewrite deliver_view_exit. destruct (bool_decide _); cbn; auto.
  - rewrite deliver_future_check. destruct (lease_expired _ _); cbn; auto.
Qed.

Lemma run_pending_is_last_approved (log : list (Z * Command)) (m : PDFModel)
    (last : option string) :
  pending_is_last_approved m last ->
  pending_is_last_approved (run log m) (last_approved last (run_effects log m)).
Proof.
  revert m last. induction log as [| [t c] rest IH]; intros m last Hinv;
    cbn [run run_effects last_approved].
  - assumption.
  - rewrite last_approved_app. apply IH.
    apply deliver_pending_is_last_approved. assumption.
Qed.

(** C3. After any log of messages, a [startLoad] whose [userDescription] is
    absent or empty and whose hash is not the hash of the most recent
    [load:approved] only logs: the lock, the place state and the document
    identity are as before, no snapshot is persisted and no [load:ready] is
    published.  A [startLoad] with a non-empty [userDescription] proceeds in
    every state: the lock is cleared, the place state is reset, the document
    identity is its hash, the snapshot is persisted and [load:ready] is
    published. *)
Theorem startLoad_superseded_dropped_override_proceeds (persisted : option Persisted)
    (t0 : Z) (m0 : PDFModel) (out0 : list Effect) (log : list (Z * Command))
    (t : Z) (data : LoadSpec) :
  init persisted t0 = Some (m0, out0) ->
  let m := run log m0 in
  let approved := last_approved None (out0 ++ run_effects log m0) in
  let r := deliver t (load_start data) m in
  (truthy (ls_userDescription data) = false ->
   approved <> Some (ls_sourceHash data) ->
   interactionStatus (fst r) = interactionStatus m /\
   placeState (fst r) = placeState m /\
   docSourceHash (fst r) = docSourceHash m /\
   snd r = [console_log (String.append "PDFModel: ignoring superseded load of "
                           (ls_name data))])
  /\
  (truthy (ls_userDescription data) = true ->
   interactionStatus (fst r) = emptyStatus /\
   placeState (fst r) =
     ({| scroll_page := None; scroll_top := 0; scroll_left := 0 |},
      ScaleNumber 1, 0, 0) /\
   docSourceHash (fst r) = Some (ls_sourceHash data) /\
   snd r = [persistSession (getPersistedData (fst r));
            publish_load_ready (ls_viewId data) (ls_sourceHash data)
              (ls_name data) (ls_userDescription data)]).
Proof.
  intros Hinit m approved r. subst r. rewrite deliver_load_start.
  split.
  - intros Hud Hne.
    assert (Hinv : pending_is_last_approved m approved).
    { subst m approved. rewrite last_approved_app.
      apply run_pending_is_last_approved.
      apply init_unlocked in Hinit as (Hst & _ & _).
      left. rewrite Hst. reflexivity. }
    assert (Hsup : superseded data m = true).
    { unfold superseded. rewrite Hud. cbn [negb andb].
      apply negb_true_iff, bool_decide_eq_false.
      intros Heq. destruct Hinv as [Hn | Hl]; congruence. }
    rewrite Hsup. cbn. repeat split.
  - intros Hud. unfold superseded. rewrite Hud. cbn. repeat split.
Qed.

(** ** KnownHandles *)

Lemma registered_keeps (data : LoadSpec) (m : PDFModel) (h : string) (e : HandleEntry) :
  knownHandles m !! h = Some e -> registered data m !! h = Some e.
Proof.
  intros Hh. unfold registered.
  destruct (bool_decide (is_Some (knownHandles m !! ls_sourceHash data))) eqn:Hb;
    [assumption |].
  apply bool_decide_eq_false in Hb.
  rewrite lookup_insert_ne; [assumption |].
  intros Heq. apply Hb. rewrite Heq. eauto.
Qed.

Lemma registered_new (data : LoadSpec) (m : PDFModel) :
  knownHandles m !! ls_sourceHash data = None ->
  registered data m =
  <[ls_sourceHash data := {| he_handle := ls_handle data;
                             he_name := ls_name data |}]> (knownHandles m).
Proof.
  intros Hn. unfold registered. rewrite Hn.
  rewrite bool_decide_eq_false_2; [reflexivity |].
  intros [x Hx]. discriminate.
Qed.

Lemma registered_other (data : LoadSpec) (m : PDFModel) (h : string) :
  h <> ls_sourceHash data -> registered data m !! h = knownHandles m !! h.
Proof.
  intros Hne. unfold registered. destruct (bool_decide _); [reflexivity |].
  apply lookup_insert_ne. congruence.
Qed.

Lemma deliver_load_start_knownHandles (t : Z) (data : LoadSpec) (m : PDFModel) :
  knownHandles (fst (deliver t (load_start data) m)) = registered data m.
Proof.
  rewrite deliver_load_start. destruct (superseded data m); reflexivity.
Qed.

Lemma only_load_start_writes_knownHandles (t : Z) (c : Command) (m : PDFModel) :
  keeps_knownHandles t c m.
Proof.
  destruct c as [d | d | d | v | d | d | v |]; cbn [keeps_knownHandles]; [| exact I | ..].
  - rewrite deliver_load_request. destruct (_ && _); reflexivity.
  - rewrite deliver_place_set. destruct (place_available _ _); reflexivity.
  - rewrite deliver_endInteraction. destruct (bool_decide _); reflexivity.
  - rewrite deliver_rotation_request. destruct (place_available _ _); reflexivity.
  - rewrite deliver_scrollMode_request. destruct (place_available _ _); reflexivity.
  - rewrite deliver_view_exit. destruct (bool_decide _); reflexivity.
  - rewrite deliver_future_check. destruct (lease_expired _ _); reflexivity.
Qed.

Lemma deliver_keeps_entry (t : Z) (c : Command) (m : PDFModel) (h : string)
    (e : HandleEntry) :
  knownHandles m !! h = Some e ->
  knownHandles (fst (deliver t c m)) !! h = Some e.
Proof.
  intros Hh. pose proof (only_load_start_writes_knownHandles t c m) as Hk.
  destruct c as [d | d | d | v | d | d | v |]; cbn [keeps_knownHandles] in Hk;
    try (rewrite Hk; assumption).
  rewrite deliver_load_start_knownHandles. apply registered_keeps. assumption.
Qed.

Lemma run_keeps_entry (log : list (Z * Command)) (m : PDFModel) (h : string)
    (e : HandleEntry) :
  knownHandles m !! h = Some e -> knownHandles (run log m) !! h = Some e.
Proof.
  revert m. induction log as [| [t c] rest IH]; intros m Hh; cbn [run].
  - assumption.
  - apply IH, deliver_keeps_entry, Hh.
Qed.

Lemma restoreFromPersisted_knownHandles (p : Persisted) (t : Z) (m m' : PDFModel)
    (out : list Effect) :
  restoreFromPersisted p t m = Some (m', out) ->
  knownHandles m' =
  (fun e => {| he_handle := Data_fromId (ph_id e); he_name := ph_name e |})
    <$> p_handles p.
Proof.
  unfold restoreFromPersisted.
  destruct (p_docSourceHash p) as [h |]; [| intros [= <- <-]; reflexivity].
  destruct (truthy (Some h)); [| intros [= <- <-]; reflexivity].
  cbn [set_knownHandles knownHandles].
  destruct (_ !! h) as [e |] eqn:He; [| discriminate].
  intros [= <- _].
  match goal with
  | |- knownHandles (snd (fst (startLoad ?d t ?m1))) = _ =>
      change (snd (fst (startLoad d t m1)))
        with (fst (deliver t (load_start d) m1));
      rewrite (deliver_load_start_knownHandles t d m1)
  end.
  unfold registered. cbn [ls_sourceHash set_knownHandles knownHandles].
  rewrite He. rewrite bool_decide_eq_true_2; [reflexivity | eauto].
Qed.

(** C8. An entry of [knownHandles] survives every log of messages unchanged;
    no message other than [load:start] writes the map, and a [load:start]
    writes no key but its own; the first [load:start] for a hash fixes the
    handle and the name found under it ever after; and a model restored from
    the snapshot of another has an entry, with the same name and the handle
    of the persisted id, for every hash the other had. *)
Theorem knownHandles_first_writer_wins (m : PDFModel) (log : list (Z * Command)) :
  (forall (h : string) (e : HandleEntry),
      knownHandles m !! h = Some e -> knownHandles (run log m) !! h = Some e)
  /\
  (forall (t : Z) (c : Command), keeps_knownHandles t c m)
  /\
  (forall (t : Z) (d : LoadSpec) (h : string),
      h <> ls_sourceHash d ->
      knownHandles (fst (deliver t (load_start d) m)) !! h = knownHandles m !! h)
  /\
  (forall (t : Z) (d : LoadSpec),
      knownHandles m !! ls_sourceHash d = None ->
      knownHandles (run log (fst (deliver t (load_start d) m))) !! ls_sourceHash d
      = Some {| he_handle := ls_handle d; he_name := ls_name d |})
  /\
  (forall (t : Z) (m' : PDFModel) (out : list Effect) (h : string) (e : HandleEntry),
      init (Some (getPersistedData m)) t = Some (m', out) ->
      knownHandles m !! h = Some e ->
      knownHandles m' !! h
      = Some {| he_handle := Data_fromId (Data_toId (he_handle e));
                he_name := he_name e |}).
Proof.
  split; [| split; [| split; [| split]]].
  - intros h e. apply run_keeps_entry.
  - intros t c. apply only_load_start_writes_knownHandles.
  - intros t d h Hne. rewrite deliver_load_start_knownHandles.
    apply registered_other, Hne.
  - intros t d Hnew. apply run_keeps_entry.
    rewrite deliver_load_start_knownHandles, (registered_new d m Hnew).
    apply lookup_insert_eq.
  - intros t m' out h e Hinit Hh. cbn [init] in Hinit.
    apply restoreFromPersisted_knownHandles in Hinit. rewrite Hinit.
    cbn [getPersistedData p_handles]. rewrite !lookup_fmap, Hh. reflexivity.
Qed.

(** ** A dropped startLoad still registers its handle *)

Lemma getUserDescription_truthy (v : PDFView) :
  truthy (Some (getUserDescription v)) = true.
Proof.
  unfold getUserDescription.
  destruct (v_userDescription v) as [s |]; [| reflexivity].
  destruct (truthy (Some s)) eqn:Hs; [assumption | reflexivity].
Qed.

(** C10. A [startLoad] for a hash that [knownHandles] does not have enters
    its handle and name under that hash whether or not it is then dropped;
    when it is dropped, that entry is the only change to the model and the
    diagnostic is the only output.  After any further messages, a view that
    is not already showing that content and receives a file with that hash
    publishes [load:start] with the registered handle and a non-empty
    [userDescription], not a [load:request]. *)
Theorem dropped_startLoad_still_registers_handle (t : Z) (data : LoadSpec) (m : PDFModel) :
  knownHandles m !! ls_sourceHash data = None ->
  let r := deliver t (load_start data) m in
  let entry := {| he_handle := ls_handle data; he_name := ls_name data |} in
  knownHandles (fst r) !! ls_sourceHash data = Some entry
  /\
  (superseded data m = true ->
   r = (set_knownHandles (<[ls_sourceHash data := entry]> (knownHandles m)) m,
        [console_log (String.append "PDFModel: ignoring superseded load of "
                        (ls_name data))]))
  /\
  (forall (log : list (Z * Command)) (v : PDFView) (fileName : string),
      v_docSourceHash v <> Some (ls_sourceHash data) ->
      uploadFile_publish v (run log (fst r)) (ls_sourceHash data) fileName
      = Some (load_start {| ls_sourceHash := ls_sourceHash data;
                            ls_viewId := Some (v_viewId v);
                            ls_handle := ls_handle data;
                            ls_name := ls_name data;
                            ls_userDescription := Some (getUserDescription v) |})
      /\ truthy (Some (getUserDescription v)) = true).
Proof.
  intros Hnew r entry.
  assert (Hreg : knownHandles (fst r) !! ls_sourceHash data = Some entry).
  { subst r. rewrite deliver_load_start_knownHandles, (registered_new data m Hnew).
    apply lookup_insert_eq. }
  split; [exact Hreg |]. split.
  - intros Hsup. subst r. rewrite deliver_load_start, Hsup.
    rewrite (registered_new data m Hnew). reflexivity.
  - intros log v fileName Hdoc. split; [| apply getUserDescription_truthy].
    unfold uploadFile_publish.
    rewrite bool_decide_eq_false_2 by congruence.
    rewrite (run_keeps_entry log _ _ _ Hreg). reflexivity.
Qed.

(** ** The place lease *)

Lemma deliver_lease_written_by (t : Z) (c : Command) (m : PDFModel) :
  lease_written_by t c m.
Proof.
  unfold lease_written_by.
  destruct c as [d | d | d | v | d | d | v |].
  - rewrite deliver_load_request. destruct (_ && _); cbn; [auto |].
    right. left. split; [discriminate | reflexivity].
  - rewrite deliver_load_start. destruct (superseded d m); cbn; [auto |].
    right. left. split; [discriminate | reflexivity].
  - rewrite deliver_place_set. destruct (place_available _ _); cbn; [| auto].
    right. right. exists (pd_viewId d). repeat split.
  - rewrite deliver_endInteraction. destruct (bool_decide _); cbn; [| auto].
    right. left. split; [discriminate | reflexivity].
  - rewrite deliver_rotation_request. destruct (place_available _ _); cbn; [| auto].
    right. right. exists (rr_viewId d). repeat split.
  - rewrite deliver_scrollMode_request. destruct (place_available _ _); cbn; [| auto].
    right. right. exists (sr_viewId d). repeat split.
  - rewrite deliver_view_exit. destruct (bool_decide _); cbn; [| auto].
    right. left. split; [discriminate | reflexivity].
  - rewrite deliver_future_check. destruct (lease_expired _ _); cbn; [| auto].
    right. left. split; [discriminate | reflexivity].
Qed.

Lemma forallb_leb_In (t d : Z) (l : list Z) :
  forallb (Z.leb t) l = true -> In d l -> t <= d.
Proof.
  intros Hall Hin. rewrite forallb_forall in Hall.
  apply Z.leb_le, Hall, Hin.
Qed.

Lemma world_step_lease_bounded (e : Entry) (w w' : World) :
  lease_bounded w -> world_step e w = Some w' -> lease_bounded w'.
Proof.
  intros Hinv. destruct e as [t c |]; cbn [world_step].
  - destruct ((w_clock w <=? t) && forallb (Z.leb t) (w_futures w) && from_view c)
      eqn:Hg; [| discriminate].
    apply andb_true_iff in Hg as [Hg _].
    apply andb_true_iff in Hg as [Hclock Hdue]. apply Z.leb_le in Hclock.
    intros Heq. apply (inj Some) in Heq. subst w'.
    unfold lease_bounded. cbn [w_model w_clock w_futures].
    intros tl Hk Ht.
    destruct (deliver_lease_written_by t c (w_model w))
      as [[Hsame _] | [[Hnot _] | (v & _ & _ & Hgr & Hsch)]].
    + rewrite Hsame in Hk, Ht. destruct (Hinv tl Hk Ht) as [[Hlo Hhi] Hin].
      pose proof (forallb_leb_In _ _ _ Hdue Hin).
      split; [lia | apply in_or_app; left; assumption].
    + contradiction.
    + rewrite Hgr in Ht. injection Ht as <-. rewrite Hsch.
      unfold PLACE_TIMEOUT. split; [lia | apply in_or_app; right; left; reflexivity].
  - destruct (w_futures w) as [| d rest] eqn:Hf; [discriminate |].
    destruct ((w_clock w <=? d) && forallb (Z.leb d) rest) eqn:Hg; [| discriminate].
    apply andb_true_iff in Hg as [Hclock Hdue]. apply Z.leb_le in Hclock.
    intros Heq. apply (inj Some) in Heq. subst w'.
    unfold lease_bounded. cbn [w_model w_clock w_futures].
    rewrite deliver_future_check.
    destruct (lease_expired d (interactionStatus (w_model w))) eqn:Hexp;
      cbn [fst snd scheduled]; [discriminate |].
    intros tl Hk Ht. destruct (Hinv tl Hk Ht) as [[Hlo Hhi] Hin].
    rewrite Hf in Hin. rewrite app_nil_r.
    assert (Hne : d <> tl + PLACE_TIMEOUT).
    { intros ->. assert (lease_expired (tl + PLACE_TIMEOUT)
                           (interactionStatus (w_model w)) = true); [| congruence].
      apply lease_expired_iff. split; [assumption |]. rewrite Ht. f_equal. lia. }
    destruct Hin as [Heq | Hin]; [congruence |].
    pose proof (forallb_leb_In _ _ _ Hdue Hin).
    split; [lia | assumption].
Qed.

Lemma world_run_lease_bounded (log : list Entry) (w w' : World) :
  lease_bounded w -> world_run log w = Some w' -> lease_bounded w'.
Proof.
  revert w. induction log as [| e rest IH]; intros w Hinv; cbn [world_run].
  - intros [= <-]. assumption.
  - destruct (world_step e w) as [w1 |] eqn:Hstep; [| discriminate].
    apply IH. eapply world_step_lease_bounded; eassumption.
Qed.

Lemma world_init_lease_bounded (persisted : option Persisted) (t : Z) (w : World) :
  world_init persisted t = Some w -> lease_bounded w.
Proof.
  unfold world_init. destruct (init persisted t) as [[m out] |] eqn:Hinit;
    [| discriminate].
  intros [= <-]. apply init_unlocked in Hinit as (Hst & _ & _).
  unfold lease_bounded. cbn [w_model]. rewrite Hst. discriminate.
Qed.

Lemma run_lease_origin (log : list (Z * Command)) (m : PDFModel) :
  let st := interactionStatus (run log m) in
  st = interactionStatus m
  \/ is_lock st <> Some LockPlace
  \/ (exists v' t', In t' (map fst log) /\ st = place_granted v' t').
Proof.
  revert m. induction log as [| [t c] rest IH]; intros m; cbn [run map fst].
  - left. reflexivity.
  - destruct (IH (fst (deliver t c m))) as [Hsame | [Hnot | (v' & t' & Hin & Hst)]].
    + rewrite Hsame.
      destruct (deliver_lease_written_by t c m)
        as [[Hkeep _] | [[Hnot _] | (v & _ & _ & Hgr & _)]].
      * left. assumption.
      * right. left. assumption.
      * right. right. exists v, t. split; [left; reflexivity | assumption].
    + right. left. assumption.
    + right. right. exists v', t'. split; [right; assumption | assumption].
Qed.

Lemma future_check_cases (n : Z) (m : PDFModel) :
  deliver n future_check m = (m, [])
  \/ (is_lock (interactionStatus m) = Some LockPlace /\
      is_time (interactionStatus m) = Some (n - PLACE_TIMEOUT) /\
      deliver n future_check m = (set_interactionStatus emptyStatus m, [])).
Proof.
  rewrite deliver_future_check.
  destruct (lease_expired n (interactionStatus m)) eqn:Hexp; [| left; reflexivity].
  right. apply lease_expired_iff in Hexp as [Hk Ht]. auto.
Qed.


(** ** endInteraction *)

(** What [endInteraction] does in every state: the lock is cleared exactly
    when its holder is the sender, whatever its kind. *)
Lemma endInteraction_clears_iff_holder (t : Z) (v : string) (m : PDFModel) :
  (is_viewId (interactionStatus m) = Some v /\
   deliver t (place_endInteraction v) m = (set_interactionStatus emptyStatus m, []))
  \/
  (is_viewId (interactionStatus m) <> Some v /\
   deliver t (place_endInteraction v) m = (m, [])).
Proof.
  rewrite deliver_endInteraction.
  destruct (bool_decide (is_viewId (interactionStatus m) = Some v)) eqn:Hb.
  - apply bool_decide_eq_true in Hb. left. auto.
  - apply bool_decide_eq_false in Hb. right. auto.
Qed.

(** ** Hashing the dropped file *)

Section Hashing.
Context {BR : Browser}.

(** The zero-length guard of [hashSourceBuffer] works for a typed array. *)
Lemma hashSourceBuffer_empty_Uint8Array (name type : string) (size : Z) :
  hashSourceBuffer (newFileUploader (PojoFile name size type (Uint8Array [])))
  = ([], EMPTY_HASH).
Proof. reflexivity. Qed.

(** Whenever the digest primitive is called, it is called once, on the raw
    bytes of the dropped file, whether or not the file will need conversion. *)
Lemma hashSourceBuffer_digests_source_bytes (u : FileUploader) :
  fst (hashSourceBuffer u) = []
  \/ (fst (hashSourceBuffer u) = [crypto_subtle_digest "SHA-256" (file_bytes (fu_file u))]
      /\ snd (hashSourceBuffer u)
         = toBase64url (subtle_digest_SHA256 (file_bytes (fu_file u)))).
Proof.
  unfold hashSourceBuffer, getSourceBuffer.
  destruct (fu_file u) as [name type contents [|] | name size type buffer];
    cbn [buffer_length buffer_bytes file_bytes].
  - right. rewrite bool_decide_eq_false_2 by discriminate. auto.
  - right. rewrite bool_decide_eq_false_2 by discriminate. auto.
  - destruct (bool_decide (buffer_length buffer = Some 0)); cbn; auto.
Qed.

(** The guard reads [buffer.length], which an [ArrayBuffer] does not have:
    on an [ArrayBuffer] without bytes the method, taken alone, calls the
    digest primitive.  No such buffer reaches it from an OS file, which
    [uploadFile] refuses for its size first. *)
Lemma hashSourceBuffer_digests_empty_ArrayBuffer (name type : string)
    (has_arrayBuffer : bool) (size : Z) :
  hashSourceBuffer (newFileUploader (OSFile name type [] has_arrayBuffer))
  = ([crypto_subtle_digest "SHA-256" []], toBase64url (subtle_digest_SHA256 []))
  /\
  hashSourceBuffer (newFileUploader (PojoFile name size type (ArrayBuffer [])))
  = ([crypto_subtle_digest "SHA-256" []], toBase64url (subtle_digest_SHA256 []))
  /\
  getSourceHash (newFileUploader (OSFile name type [] has_arrayBuffer))
  = ([crypto_subtle_digest "SHA-256" []],
     toBase64url (subtle_digest_SHA256 []),
     {| fu_file := OSFile name type [] has_arrayBuffer;
        fu_needsConversion := negb (String.eqb type "application/pdf");
        fu_sourceHash := Some (toBase64url (subtle_digest_SHA256 [])) |}).
Proof.
  destruct has_arrayBuffer; repeat split.
Qed.

End Hashing.

(** ** The view's pre-flight check against the model's decision *)

Lemma okToPublish_place_is_place_available (v : PDFView) (m : PDFModel) :
  status_wf (interactionStatus m) ->
  okToPublish v m "place" = place_available (v_viewId v) (interactionStatus m).
Proof.
  intros [Hu | (c & k & t & Hne & Hv & Hk & _)]; unfold okToPublish, place_available.
  - unfold unlocked in Hu. rewrite Hu. reflexivity.
  - rewrite Hk, Hv. apply truthy_Some in Hne. rewrite Hne.
    change (String.eqb "place" "place") with true. cbn [andb].
    destruct (bool_decide (Some c = Some (v_viewId v))); cbn [andb negb orb];
      [| reflexivity].
    destruct k.
    + rewrite bool_decide_eq_false_2 by discriminate.
      rewrite bool_decide_eq_true_2 by reflexivity. reflexivity.
    + rewrite bool_decide_eq_true_2 by reflexivity.
      rewrite bool_decide_eq_false_2 by discriminate. reflexivity.
Qed.

(** X1. On a model whose lock record is well formed, the view's pre-flight
    check [okToPublish('place')] answers exactly as the model will decide if
    nothing intervenes: when it says yes, the view's [place:set] is granted
    and echoed; when it says no, the model would have ignored the message. *)
Theorem okToPublish_place_agrees_with_setPlace (v : PDFView) (m : PDFModel)
    (t : Z) (data : PlaceData) :
  status_wf (interactionStatus m) ->
  pd_viewId data = v_viewId v ->
  (okToPublish v m "place" = true /\
   snd (deliver t (place_set data) m)
   = [future_checkInteractionStatus PLACE_TIMEOUT;
      publish_place_update (v_viewId v)])
  \/
  (okToPublish v m "place" = false /\ deliver t (place_set data) m = (m, [])).
Proof.
  intros Hwf Hid. rewrite (okToPublish_place_is_place_available v m Hwf).
  rewrite deliver_place_set, Hid.
  destruct (place_available (v_viewId v) (interactionStatus m)); [left | right];
    split; reflexivity.
Qed.

(** ** What never moves the shared place or the document identity *)

Lemma deliver_placeState_frame (t : Z) (c : Command) (m : PDFModel) :
  writes_place c = false -> placeState (fst (deliver t c m)) = placeState m.
Proof.
  destruct c as [d | d | d | v | d | d | v |]; try discriminate; intros _.
  - rewrite deliver_load_request. destruct (_ && _); reflexivity.
  - rewrite deliver_endInteraction. destruct (bool_decide _); reflexivity.
  - rewrite deliver_rotation_request. destruct (place_available _ _); reflexivity.
  - rewrite deliver_scrollMode_request. destruct (place_available _ _); reflexivity.
  - rewrite deliver_view_exit. destruct (bool_decide _); reflexivity.
  - rewrite deliver_future_check. destruct (lease_expired _ _); reflexivity.
Qed.

Lemma deliver_docSourceHash_frame (t : Z) (c : Command) (m : PDFModel) :
  is_load_start c = false -> docSourceHash (fst (deliver t c m)) = docSourceHash m.
Proof.
  destruct c as [d | d | d | v | d | d | v |]; try discriminate; intros _.
  - rewrite deliver_load_request. destruct (_ && _); reflexivity.
  - rewrite deliver_place_set. destruct (place_available _ _); reflexivity.
  - rewrite deliver_endInteraction. destruct (bool_decide _); reflexivity.
  - rewrite deliver_rotation_request. destruct (place_available _ _); reflexivity.
  - rewrite deliver_scrollMode_request. destruct (place_available _ _); reflexivity.
  - rewrite deliver_view_exit. destruct (bool_decide _); reflexivity.
  - rewrite deliver_future_check. destruct (lease_expired _ _); reflexivity.
Qed.

(** X2. Whatever the lock traffic, the place state ([scroll],
    [relativeScale], [pagesRotation], [scrollMode]) is the same after any log
    that holds no [place:set] and no [load:start], and the document identity
    is the same after any log that holds no [load:start]: load requests,
    rotation and scroll-mode requests, ends of interaction, exits and lease
    checks never write them. *)
Theorem only_setPlace_and_startLoad_move_the_place (log : list (Z * Command))
    (m : PDFModel) :
  (Forall (fun e => writes_place (snd e) = false) log ->
   placeState (run log m) = placeState m)
  /\
  (Forall (fun e => is_load_start (snd e) = false) log ->
   docSourceHash (run log m) = docSourceHash m).
Proof.
  split; revert m; induction log as [| [t c] rest IH]; intros m Hall;
    cbn [run]; try reflexivity;
    inversion Hall as [| ? ? Hc Hrest]; subst; cbn [snd] in Hc;
    rewrite (IH _ Hrest).
  - apply deliver_placeState_frame, Hc.
  - apply deliver_docSourceHash_frame, Hc.
Qed.

(** ** A pending load is not disturbed *)

Lemma place_unavailable_during_load (c0 h c : string) (t0 : Z) :
  c0 <> "" -> place_available c (load_granted c0 h t0) = false.
Proof.
  intros Hne. unfold place_available, load_granted. cbn [is_viewId is_lock].
  apply truthy_Some in Hne. rewrite Hne.
  rewrite (bool_decide_eq_false_2 (Some LockLoad = Some LockPlace)) by discriminate.
  cbn. rewrite orb_true_r. reflexivity.
Qed.

Lemma deliver_beside_load (t : Z) (c : Command) (m : PDFModel) (c0 h : string)
    (t0 : Z) :
  interactionStatus m = load_granted c0 h t0 -> c0 <> "" -> beside_load c0 c ->
  deliver t c m = (m, []).
Proof.
  intros Hst Hne Hc.
  destruct c as [d | d | d | v | d | d | v |]; cbn [beside_load] in Hc;
    try contradiction.
  - rewrite deliver_place_set, Hst, place_unavailable_during_load by assumption.
    reflexivity.
  - rewrite deliver_endInteraction, Hst. cbn [load_granted is_viewId].
    rewrite bool_decide_eq_false_2 by congruence. reflexivity.
  - rewrite deliver_rotation_request, Hst, place_unavailable_during_load by assumption.
    reflexivity.
  - rewrite deliver_scrollMode_request, Hst, place_unavailable_during_load
      by assumption.
    reflexivity.
  - rewrite deliver_view_exit, Hst. cbn [load_granted is_viewId].
    rewrite bool_decide_eq_false_2 by congruence. reflexivity.
  - rewrite deliver_future_check, Hst. reflexivity.
Qed.

(** X3. While a client holds the [load] lock, any log of [place:set],
    rotation and scroll-mode requests from anyone (the holder included), of
    lease checks, and of ends of interaction and exits of other clients
    leaves the whole model as it is and emits nothing: a pending upload
    blocks all navigation and is never timed out. *)
Theorem load_lock_blocks_navigation (log : list (Z * Command)) (m : PDFModel)
    (c0 h : string) (t0 : Z) :
  interactionStatus m = load_granted c0 h t0 ->
  c0 <> "" ->
  Forall (fun e => beside_load c0 (snd e)) log ->
  run log m = m /\ run_effects log m = [].
Proof.
  intros Hst Hne Hall. induction log as [| [t c] rest IH];
    cbn [run run_effects]; [split; reflexivity |].
  inversion Hall as [| ? ? Hc Hrest]; subst; cbn [snd] in Hc.
  rewrite (deliver_beside_load t c m c0 h t0 Hst Hne Hc). cbn [fst snd app].
  apply IH, Hrest.
Qed.

(** ** A client that leaves *)

(** X4. When the client named in the lock record leaves, the record is
    emptied whatever its kind, and the next [place:set], from any client, is
    granted and applied; the exit of any other client changes nothing. *)
Theorem onViewExit_hands_the_place_over (m : PDFModel) (v : string) (t t' : Z)
    (data : PlaceData) :
  (is_viewId (interactionStatus m) = Some v ->
   let m1 := fst (deliver t (view_exit v) m) in
   interactionStatus m1 = emptyStatus /\
   snd (deliver t' (place_set data) m1)
   = [future_checkInteractionStatus PLACE_TIMEOUT;
      publish_place_update (pd_viewId data)] /\
   scroll (fst (deliver t' (place_set data) m1))
   = {| scroll_page := Some (pd_page data); scroll_top := pd_top data;
        scroll_left := pd_left data |} /\
   interactionStatus (fst (deliver t' (place_set data) m1))
   = place_granted (pd_viewId data) t')
  /\
  (is_viewId (interactionStatus m) <> Some v ->
   deliver t (view_exit v) m = (m, [])).
Proof.
  split; intros Hv; rewrite deliver_view_exit.
  - rewrite bool_decide_eq_true_2 by assumption. cbn [fst].
    rewrite deliver_place_set. cbn. repeat split.
  - rewrite bool_decide_eq_false_2 by assumption. reflexivity.
Qed.

(** ** The document the model names can always be fetched *)

Lemma registered_has (data : LoadSpec) (m : PDFModel) :
  is_Some (registered data m !! ls_sourceHash data).
Proof.
  unfold registered.
  destruct (bool_decide (is_Some (knownHandles m !! ls_sourceHash data))) eqn:Hb.
  - apply bool_decide_eq_true in Hb. assumption.
  - rewrite lookup_insert_eq. eauto.
Qed.

Lemma deliver_doc_registered (t : Z) (c : Command) (m : PDFModel) :
  doc_registered m -> doc_registered (fst (deliver t c m)).
Proof.
  intros Hinv h. destruct (is_load_start c) eqn:Hc.
  - destruct c as [d | d | d | v | d | d | v |]; try discriminate.
    rewrite deliver_load_start. destruct (superseded d m); cbn.
    + intros Hh. destruct (Hinv h Hh) as [e He].
      exists e. apply registered_keeps, He.
    + intros [= <-]. apply registered_has.
  - rewrite (deliver_docSourceHash_frame t c m Hc). intros Hh.
    destruct (Hinv h Hh) as [e He]. exists e. apply deliver_keeps_entry, He.
Qed.

Lemma run_doc_registered (log : list (Z * Command)) (m : PDFModel) :
  doc_registered m -> doc_registered (run log m).
Proof.
  revert m. induction log as [| [t c] rest IH]; intros m Hinv; cbn [run].
  - assumption.
  - apply IH, deliver_doc_registered, Hinv.
Qed.

Lemma init_doc_registered (persisted : option Persisted) (t : Z) (m0 : PDFModel)
    (out : list Effect) :
  init persisted t = Some (m0, out) ->
  doc_registered m0 /\
  (forall v h n u, In (publish_load_ready v h n u) out ->
                   is_Some (knownHandles m0 !! h)).
Proof.
  unfold init. destruct persisted as [p |].
  - unfold restoreFromPersisted.
    destruct (p_docSourceHash p) as [h |].
    + destruct (truthy (Some h)).
      * destruct (_ !! h) as [e |]; [| discriminate].
        match goal with
        | |- Some (snd (fst (startLoad ?d t ?m1)), snd (startLoad ?d t ?m1)) = _ -> _ =>
            change (Some (snd (fst (startLoad d t m1)), snd (startLoad d t m1)))
              with (Some (deliver t (load_start d) m1));
            rewrite (deliver_load_start t d m1);
            change (superseded d m1) with false; cbn iota;
            pose proof (registered_has d m1) as Hreg
        end.
        intros [= <- <-]. split.
        -- intros h' [= <-]. exact Hreg.
        -- intros v h' n u [Hin | [Hin | []]]; [discriminate |].
           injection Hin as _ <- _ _. exact Hreg.
      * intros [= <- <-]. split; [discriminate | intros ? ? ? ? []].
    + intros [= <- <-]. split; [discriminate | intros ? ? ? ? []].
  - intros [= <- <-]. split; [discriminate | intros ? ? ? ? []].
Qed.

Lemma deliver_load_ready_registered (t : Z) (c : Command) (m : PDFModel)
    (v : option string) (h n : string) (u : option string) :
  In (publish_load_ready v h n u) (snd (deliver t c m)) ->
  is_Some (knownHandles (fst (deliver t c m)) !! h).
Proof.
  destruct c as [d | d | d | w | d | d | w |].
  - rewrite deliver_load_request. destruct (_ && _); cbn;
      [intros [] | intros [H | []]; discriminate].
  - rewrite deliver_load_start. destruct (superseded d m); cbn.
    + intros [H | []]; discriminate.
    + intros [H | [H | []]]; [discriminate |].
      injection H as _ <- _ _. apply registered_has.
  - rewrite deliver_place_set. destruct (place_available _ _); cbn;
      [intros [H | [H | []]]; discriminate | intros []].
  - rewrite deliver_endInteraction. destruct (bool_decide _); intros [].
  - rewrite deliver_rotation_request. destruct (place_available _ _); cbn;
      [intros [H | [H | []]]; discriminate | intros []].
  - rewrite deliver_scrollMode_request. destruct (place_available _ _); cbn;
      [intros [H | [H | []]]; discriminate | intros []].
  - rewrite deliver_view_exit. destruct (bool_decide _); intros [].
  - rewrite deliver_future_check. destruct (lease_expired _ _); intros [].
Qed.

Lemma run_load_ready_registered (log : list (Z * Command)) (m : PDFModel)
    (v : option string) (h n : string) (u : option string) :
  In (publish_load_ready v h n u) (run_effects log m) ->
  is_Some (knownHandles (run log m) !! h).
Proof.
  revert m. induction log as [| [t c] rest IH]; intros m; cbn [run run_effects].
  - intros [].
  - intros Hin. apply in_app_or in Hin as [Hin | Hin].
    + apply deliver_load_ready_registered in Hin as [e He].
      exists e. apply run_keeps_entry, He.
    + apply IH, Hin.
Qed.

(** X5. From the start of a session and after any log of messages, the
    document the model names, and the hash of every [load:ready] it has
    published so far, has an entry in [knownHandles]: the view's
    [loadFromSourceHash], which destructures that entry, does not throw, in
    the constructor ([model.docSourceHash]) or on [load:ready]. *)
Theorem loadFromSourceHash_finds_every_announced_document
    (persisted : option Persisted) (t0 : Z) (m0 : PDFModel) (out0 : list Effect)
    (log : list (Z * Command)) :
  init persisted t0 = Some (m0, out0) ->
  let m := run log m0 in
  (forall h, docSourceHash m = Some h ->
             is_Some (loadFromSourceHash m h false))
  /\
  (forall v h n u,
      In (publish_load_ready v h n u) (out0 ++ run_effects log m0) ->
      is_Some (loadFromSourceHash m h true)).
Proof.
  intros Hinit m. apply init_doc_registered in Hinit as [Hdoc Hout].
  assert (Hload : forall h b, is_Some (knownHandles m !! h) ->
                              is_Some (loadFromSourceHash m h b)).
  { intros h b [e He]. unfold loadFromSourceHash. rewrite He. eauto. }
  split.
  - intros h Hh. apply Hload. exact (run_doc_registered log m0 Hdoc h Hh).
  - intros v h n u Hin. apply Hload. apply in_app_or in Hin as [Hin | Hin].
    + destruct (Hout v h n u Hin) as [e He]. exists e. apply run_keeps_entry, He.
    + eapply run_load_ready_registered, Hin.
Qed.

(** ** Snapshots *)

Lemma persisted_handles_round_trip (x : gmap string PersistedHandle) :
  (forall i, Data_toId (Data_fromId i) = i) ->
  (fun e => {| ph_id := Data_toId (he_handle e); ph_name := he_name e |})
    <$> ((fun e => {| he_handle := Data_fromId (ph_id e); he_name := ph_name e |})
           <$> x)
  = x.
Proof.
  intros Hid. apply map_eq. intros i. rewrite !lookup_fmap.
  destruct (x !! i) as [[id name] |]; cbn; [| reflexivity].
  rewrite Hid. reflexivity.
Qed.

(** X6. When [Data.toId] undoes [Data.fromId], a model reached from the
    start of a session whose document hash is not the empty string can always
    be restored from its own snapshot: [init] does not throw, the restored
    model has the same document, an empty lock and the default place, its own
    snapshot is the snapshot it was restored from, and it announces the
    document, if there is one, by a [load:ready] marked "recovered session"
    after persisting. *)
Theorem restore_from_own_snapshot (persisted : option Persisted) (t0 : Z)
    (m0 : PDFModel) (out0 : list Effect) (log : list (Z * Command)) (t : Z) :
  init persisted t0 = Some (m0, out0) ->
  (forall i, Data_toId (Data_fromId i) = i) ->
  let m := run log m0 in
  docSourceHash m <> Some "" ->
  exists m' out,
    init (Some (getPersistedData m)) t = Some (m', out) /\
    getPersistedData m' = getPersistedData m /\
    docSourceHash m' = docSourceHash m /\
    interactionStatus m' = emptyStatus /\
    placeState m' =
      ({| scroll_page := None; scroll_top := 0; scroll_left := 0 |},
       ScaleNumber 1, 0, 0) /\
    match docSourceHash m with
    | None => out = []
    | Some h =>
        exists e, knownHandles m !! h = Some e /\
                  out = [persistSession (getPersistedData m');
                         publish_load_ready None h (he_name e)
                           (Some "recovered session")]
    end.
Proof.
  intros Hinit Hid m Hne.
  assert (Hdoc : doc_registered m).
  { apply run_doc_registered. apply init_doc_registered in Hinit as [H _]. exact H. }
  unfold init, restoreFromPersisted. cbn [getPersistedData p_docSourceHash p_handles].
  unfold doc_registered in Hdoc.
  destruct (docSourceHash m) as [h |] eqn:Hh.
  - assert (Htr : truthy (Some h) = true).
    { apply truthy_Some. congruence. }
    rewrite Htr. destruct (Hdoc h eq_refl) as [e He].
    cbn [set_knownHandles knownHandles]. rewrite !lookup_fmap, He. cbn [fmap option_fmap option_map].
    match goal with
    | |- exists m' out, Some (snd (fst (startLoad ?d t ?m1)), snd (startLoad ?d t ?m1)) = _ /\ _ =>
        change (snd (fst (startLoad d t m1)), snd (startLoad d t m1))
          with (deliver t (load_start d) m1);
        rewrite (deliver_load_start t d m1);
        change (superseded d m1) with false; cbn iota;
        assert (Hreg : registered d m1 = knownHandles m1)
    end.
    { unfold registered. cbn [ls_sourceHash set_knownHandles knownHandles].
      rewrite bool_decide_eq_true_2; [reflexivity |].
      rewrite !lookup_fmap, He. cbn. eauto. }
    eexists. eexists. split; [reflexivity |].
    unfold loaded. rewrite Hreg. cbn [set_knownHandles knownHandles].
    split.
    { unfold getPersistedData. cbn [knownHandles docSourceHash ls_sourceHash].
      rewrite persisted_handles_round_trip by assumption. rewrite Hh. reflexivity. }
    repeat split. exists e. split; [reflexivity |]. reflexivity.
  - eexists. eexists. split; [reflexivity |].
    split.
    { unfold getPersistedData. cbn [set_knownHandles knownHandles docSourceHash fresh_model].
      rewrite persisted_handles_round_trip by assumption. rewrite Hh. reflexivity. }
    repeat split.
Qed.

(** ** Admission of a dropped file *)

Section UploadProperties.
Context {BR : Browser}.

(** X7. [uploadFile] does no hashing and publishes nothing for a file whose
    size is zero or above [MAX_FILE_MB] megabytes, or that is not
    displayable: it only warns and leaves [activeUploader] empty.  It never
    both warns and publishes; it keeps an active uploader exactly when it
    does not warn, and whatever it publishes comes from a file that passed
    all three checks. *)
Theorem uploadFile_admits_before_hashing (v : PDFView) (m : PDFModel)
    (formats : FileFormats) (file : DroppedFile) :
  let r := uploadFile v m formats file in
  ((file_size file = 0 \/ MAX_FILE_MB * 1048576 < file_size file
    \/ isFileDisplayable formats file = false) ->
   is_Some (up_warning r) /\ up_calls r = [] /\
   up_activeUploader r = None /\ up_published r = None)
  /\
  (is_Some (up_published r) ->
   file_size file <> 0 /\ file_size file <= MAX_FILE_MB * 1048576 /\
   isFileDisplayable formats file = true /\ up_warning r = None)
  /\
  (up_warning r = None <-> is_Some (up_activeUploader r)).
Proof.
  intros r. subst r. unfold uploadFile.
  destruct (file_size file =? 0) eqn:H0.
  { cbn. split; [intros _; repeat split; eauto |].
    split; [intros [x Hx]; discriminate |].
    split; [discriminate | intros [x Hx]; discriminate]. }
  apply Z.eqb_neq in H0.
  destruct (MAX_FILE_MB * 1048576 <? file_size file) eqn:Hmax.
  { cbn. split; [intros _; repeat split; eauto |].
    split; [intros [x Hx]; discriminate |].
    split; [discriminate | intros [x Hx]; discriminate]. }
  apply Z.ltb_ge in Hmax.
  destruct (isFileDisplayable formats file) eqn:Hd; cbn [negb].
  2:{ cbn. split; [intros _; repeat split; eauto |].
      split; [intros [x Hx]; discriminate |].
      split; [discriminate | intros [x Hx]; discriminate]. }
  destruct (bool_decide _); cbn.
  - split; [intros [H | [H | H]]; [contradiction | lia | discriminate] |].
    split; [intros [x Hx]; discriminate |].
    split; [discriminate | intros [x Hx]; discriminate].
  - split; [intros [H | [H | H]]; [contradiction | lia | discriminate] |].
    split; [intros _; repeat split; assumption |].
    split; eauto.
Qed.

(** X8. Through [uploadFile], the digest primitive is never handed the empty
    contents of an OS file: for such a file it is either not called at all or
    called once, on the file's non-empty contents.  The zero-size check comes
    first, so the zero-length guard of [hashSourceBuffer] is not what keeps
    an empty file away from the digest. *)
Theorem uploadFile_never_digests_an_empty_OS_file (v : PDFView) (m : PDFModel)
    (formats : FileFormats) (name type : string) (contents : list Byte.byte)
    (has_arrayBuffer : bool) :
  let r := uploadFile v m formats (OSFile name type contents has_arrayBuffer) in
  up_calls r = []
  \/ (contents <> [] /\ up_calls r = [crypto_subtle_digest "SHA-256" contents]).
Proof.
  intros r. subst r. unfold uploadFile. cbn [file_size file_name].
  destruct (Z.of_nat (length contents) =? 0) eqn:H0; [left; reflexivity |].
  apply Z.eqb_neq in H0.
  assert (Hne : contents <> []) by (intros ->; apply H0; reflexivity).
  destruct (MAX_FILE_MB * 1048576 <? Z.of_nat (length contents));
    [left; reflexivity |].
  destruct (negb (isFileDisplayable formats _)); [left; reflexivity |].
  assert (Hcalls : fst (fst (getSourceHash
                      (newFileUploader (OSFile name type contents has_arrayBuffer))))
                   = [crypto_subtle_digest "SHA-256" contents]).
  { destruct has_arrayBuffer; reflexivity. }
  destruct (bool_decide _); cbn [up_calls]; right; split; assumption.
Qed.

End UploadProperties.

(** ** The extension of a file name and the convertible formats *)

Lemma lastIndexOf_from_absent (c : ascii) (s : string) (i acc : Z) :
  contains_char c s = false -> lastIndexOf_from c s i acc = acc.
Proof.
  revert i acc. induction s as [| a rest IH]; intros i acc; cbn; [reflexivity |].
  intros H. apply orb_false_iff in H as [Ha Hrest]. rewrite Ha. apply IH, Hrest.
Qed.

Lemma append_cons (a : ascii) (s1 s2 : string) :
  String.append (String a s1) s2 = String a (String.append s1 s2).
Proof. reflexivity. Qed.

Lemma append_empty (s : string) : String.append EmptyString s = s.
Proof. reflexivity. Qed.

Lemma lastIndexOf_from_app (c : ascii) (s1 s2 : string) (i acc : Z) :
  lastIndexOf_from c (String.append s1 s2) i acc
  = lastIndexOf_from c s2 (i + Z.of_nat (String.length s1))
      (lastIndexOf_from c s1 i acc).
Proof.
  revert i acc. induction s1 as [| a rest IH]; intros i acc.
  - rewrite append_empty. cbn. f_equal. lia.
  - rewrite append_cons. cbn [lastIndexOf_from]. rewrite IH.
    cbn [String.length]. f_equal. lia.
Qed.

Lemma lastIndexOf_last_dot (c : ascii) (stem ext : string) :
  contains_char c ext = false ->
  lastIndexOf c (String.append stem (String c ext)) = Z.of_nat (String.length stem).
Proof.
  intros Hext. unfold lastIndexOf. rewrite lastIndexOf_from_app.
  cbn [lastIndexOf_from]. rewrite Ascii.eqb_refl.
  rewrite lastIndexOf_from_absent by assumption. lia.
Qed.

Lemma substring_all (s : string) : substring 0 (String.length s) s = s.
Proof. induction s as [| a rest IH]; cbn; [reflexivity | f_equal; exact IH]. Qed.

Lemma substring_past_end (n k : nat) (s : string) :
  (String.length s <= n)%nat -> substring n k s = EmptyString.
Proof.
  revert n k. induction s as [| a rest IH]; intros n k Hn.
  - destruct n, k; reflexivity.
  - destruct n as [| n]; [cbn in Hn; lia |].
    cbn. apply IH. cbn in Hn. lia.
Qed.

Lemma substring_drop_app (s1 s2 : string) :
  substring (String.length s1) (String.length s2) (String.append s1 s2) = s2.
Proof.
  induction s1 as [| a rest IH]; [apply substring_all |].
  rewrite append_cons. cbn. exact IH.
Qed.

Lemma length_append (s1 s2 : string) :
  String.length (String.append s1 s2) = (String.length s1 + String.length s2)%nat.
Proof.
  induction s1 as [| a rest IH]; [reflexivity |].
  rewrite append_cons. cbn. f_equal. exact IH.
Qed.

Lemma slice_from_past_end (start : Z) (s : string) :
  Z.of_nat (String.length s) <= start -> slice_from start s = EmptyString.
Proof.
  intros H. unfold slice_from.
  destruct (start <? 0) eqn:Hneg; [apply Z.ltb_lt in Hneg; lia |].
  rewrite Z.min_r by lia. apply substring_past_end. lia.
Qed.

(** X9. For a name of fewer than 2^32 characters, the extension that
    [isFileDisplayable] reads is empty when the name has no dot and when its
    only dot is its first character, and is otherwise the text after the
    last dot. *)
Theorem file_extension_after_last_dot (name : string) :
  Z.of_nat (String.length name) < 2 ^ 32 ->
  (contains_char "." name = false -> file_extension name = "")
  /\
  (forall stem ext,
      name = String.append stem (String "." ext) ->
      contains_char "." ext = false ->
      (stem = "" -> file_extension name = "") /\
      (stem <> "" -> file_extension name = ext)).
Proof.
  intros Hlen. split.
  - intros Hno. unfold file_extension, lastIndexOf.
    rewrite lastIndexOf_from_absent by assumption.
    apply slice_from_past_end. unfold to_uint32.
    change ((-1 - 1) mod 2 ^ 32) with 4294967294. lia.
  - intros stem ext -> Hext. unfold file_extension.
    rewrite lastIndexOf_last_dot by assumption.
    rewrite length_append in Hlen. cbn [String.length] in Hlen.
    split.
    + intros ->. rewrite append_empty.
      change (Z.of_nat (String.length "")) with 0.
      apply slice_from_past_end. unfold to_uint32.
      change ((0 - 1) mod 2 ^ 32) with 4294967295.
      cbn [String.length Nat.add] in *. lia.
    + intros Hstem.
      assert (Hpos : 1 <= Z.of_nat (String.length stem)).
      { destruct stem; [contradiction | cbn; lia]. }
      unfold to_uint32. rewrite Z.mod_small by lia.
      unfold slice_from.
      destruct (Z.of_nat (String.length stem) - 1 + 2 <? 0) eqn:Hneg;
        [apply Z.ltb_lt in Hneg; lia |].
      rewrite length_append. cbn [String.length].
      rewrite Z.min_l by lia.
      replace (Z.to_nat (Z.of_nat (String.length stem) - 1 + 2))
        with (String.length (String.append stem ".")).
      2:{ rewrite length_append. cbn. lia. }
      replace (Z.to_nat _) with (String.length ext) by lia.
      replace (String.append stem (String "." ext))
        with (String.append (String.append stem ".") ext).
      2:{ clear. induction stem as [| a rest IH]; [reflexivity |].
          rewrite !append_cons. f_equal. exact IH. }
      apply substring_drop_app.
Qed.

Lemma includes_app (x : string) (l1 l2 : list string) :
  includes x (l1 ++ l2) = includes x l1 || includes x l2.
Proof. unfold includes. apply existsb_app. Qed.

Lemma includes_set_add (x y : string) (s : list string) :
  includes x (set_add y s) = includes x s || String.eqb x y.
Proof.
  unfold set_add. destruct (includes y s) eqn:Hy.
  - destruct (String.eqb x y) eqn:Hxy; [| rewrite orb_false_r; reflexivity].
    apply String.eqb_eq in Hxy. subst. rewrite Hy. reflexivity.
  - rewrite includes_app. cbn. rewrite orb_false_r. reflexivity.
Qed.

Lemma includes_set_delete (x y : string) (s : list string) :
  includes x (set_delete y s) = includes x s && negb (String.eqb x y).
Proof.
  unfold set_delete, includes. induction s as [| a rest IH]; cbn; [reflexivity |].
  destruct (String.eqb a y) eqn:Hay; cbn.
  - rewrite IH. apply String.eqb_eq in Hay. subst a.
    destruct (String.eqb x y); cbn; [rewrite andb_false_r | ]; reflexivity.
  - rewrite IH. destruct (String.eqb x a) eqn:Hxa; cbn; [| reflexivity].
    apply String.eqb_eq in Hxa. subst a. rewrite Hay. reflexivity.
Qed.

Lemma includes_gathered {A : Type} (key : A -> string) (x : string) (l : list A)
    (acc : list string) :
  includes x (fold_left (fun s f => set_add (key f) s) l acc)
  = includes x acc || existsb (fun f => String.eqb x (key f)) l.
Proof.
  revert acc. induction l as [| f rest IH]; intros acc; cbn [fold_left existsb].
  - rewrite orb_false_r. reflexivity.
  - rewrite IH, includes_set_add, orb_assoc. reflexivity.
Qed.

(** X10. Given the formats gathered by [setUpFileFormats]: a file whose type
    starts with [text/] is always displayable.  Any other file is refused
    when its extension is empty or is [eps], whatever the converter listed,
    and whenever the list could not be fetched; and it is accepted when its
    extension is not [eps] and some listed format has it. *)
Theorem isFileDisplayable_by_type_or_listed_extension
    (json : option (list (list Format))) (file : DroppedFile) :
  let formats := setUpFileFormats json in
  let extn := file_extension (file_name file) in
  (String.prefix "text/" (file_type file) = true ->
   isFileDisplayable formats file = true)
  /\
  (String.prefix "text/" (file_type file) = false ->
   (extn = "" \/ extn = "eps" \/ json = None ->
    isFileDisplayable formats file = false)
   /\
   (forall categories f,
       json = Some categories -> In f (concat categories) ->
       fmt_extension f = extn -> extn <> "" -> extn <> "eps" ->
       isFileDisplayable formats file = true)).
Proof.
  intros formats extn. subst formats extn. unfold isFileDisplayable. split.
  - intros ->. reflexivity.
  - intros ->. split.
    + intros [He | [He | Hj]].
      * rewrite He. reflexivity.
      * rewrite He. destruct json as [categories |]; [| reflexivity].
        cbn [setUpFileFormats ff_extensions]. rewrite includes_set_delete.
        cbn. rewrite andb_false_r. reflexivity.
      * subst json. cbn. rewrite andb_false_r. reflexivity.
    + intros categories f -> Hin Hext Hne Heps.
      cbn [setUpFileFormats ff_extensions].
      apply andb_true_iff. split; [apply truthy_Some, Hne |].
      rewrite includes_set_delete, includes_gathered. cbn [includes existsb orb].
      apply andb_true_iff. split.
      * apply existsb_exists. exists f. split; [assumption |].
        apply String.eqb_eq. congruence.
      * apply negb_true_iff, String.eqb_neq, Heps.
Qed.

(** ** Hashing and storing happen once per uploader *)

Section CachingProperties.
Context {BR : Browser} {US : UploadServices}.

Lemma getSourceHash_stored (file : DroppedFile) (needsConversion : bool) (h : string) :
  h <> "" ->
  getSourceHash {| fu_file := file; fu_needsConversion := needsConversion;
                   fu_sourceHash := Some h |}
  = ([], h, {| fu_file := file; fu_needsConversion := needsConversion;
               fu_sourceHash := Some h |}).
Proof.
  intros Hne. unfold getSourceHash. cbn [fu_sourceHash].
  apply truthy_Some in Hne. rewrite Hne. reflexivity.
Qed.

(** X11. [getSourceHash] calls the digest at most once, on the raw bytes of
    the file, and remembers the result: unless the hash it returned is the
    empty string, a second call on the same uploader, made once the first
    has settled, makes no platform call and returns the same hash. *)
Theorem getSourceHash_hashes_once (u : FileUploader) :
  let first := getSourceHash u in
  let second := getSourceHash (snd first) in
  (fst (fst first) = []
   \/ fst (fst first) = [crypto_subtle_digest "SHA-256" (file_bytes (fu_file u))])
  /\
  (snd (fst first) = "" \/ second = ([], snd (fst first), snd first)).
Proof.
  intros first second. subst first second.
  pose proof (hashSourceBuffer_digests_source_bytes u) as Hcalls.
  assert (Hfirst : fst (fst (getSourceHash u)) = []
                   \/ fst (fst (getSourceHash u))
                      = [crypto_subtle_digest "SHA-256" (file_bytes (fu_file u))]).
  { unfold getSourceHash. destruct (fu_sourceHash u) as [h |];
      [destruct (truthy (Some h)) |]; cbn [fst snd];
      try (left; reflexivity); destruct Hcalls as [H | [H _]]; auto. }
  split; [exact Hfirst |].
  destruct (decide (snd (fst (getSourceHash u)) = "")) as [He | Hne];
    [left; exact He | right].
  unfold getSourceHash in *.
  destruct (fu_sourceHash u) as [h |] eqn:Hh.
  - destruct (truthy (Some h)) eqn:Htr; cbn [fst snd] in *.
    + rewrite Hh, Htr. reflexivity.
    + apply getSourceHash_stored, Hne.
  - cbn [fst snd] in *. apply getSourceHash_stored, Hne.
Qed.

Lemma getSourceBuffer_bytes (u : FileUploader) :
  buffer_bytes (getSourceBuffer u) = file_bytes (fu_file u).
Proof.
  unfold getSourceBuffer. destruct (fu_file u) as [? ? ? [|] | ? ? ? ?]; reflexivity.
Qed.

Lemma getPDFHandle_again (u : HandleUploader) :
  getPDFHandle (snd (getPDFHandle u))
  = ([], snd (fst (getPDFHandle u)), snd (getPDFHandle u)).
Proof.
  unfold getPDFHandle at 2 3 4.
  destruct (hu_pdfHandle u) as [known |] eqn:Hk.
  - cbn [fst snd]. unfold getPDFHandle. rewrite Hk. reflexivity.
  - destruct (fu_needsConversion (hu_uploader u)); [destruct (convert_pdf _ _ _) |];
      reflexivity.
Qed.

Lemma getPDFHandle_times_settled (n : nat) (u : HandleUploader) (h : option Handle) :
  hu_pdfHandle u = Some h ->
  getPDFHandle_times n u = ([], repeat h n, u).
Proof.
  intros Hk. induction n as [| n IH]; [reflexivity |].
  cbn [getPDFHandle_times repeat]. unfold getPDFHandle. rewrite Hk. cbn [fst snd].
  rewrite IH. reflexivity.
Qed.

Lemma getPDFHandle_settles (u : HandleUploader) :
  hu_pdfHandle (snd (getPDFHandle u)) = Some (snd (fst (getPDFHandle u))).
Proof.
  unfold getPDFHandle. destruct (hu_pdfHandle u) as [known |] eqn:Hk.
  - exact Hk.
  - destruct (fu_needsConversion (hu_uploader u)); [destruct (convert_pdf _ _ _) |];
      reflexivity.
Qed.

(** X12. However often [getPDFHandle] is called on an uploader, each call
    once the one before has settled, only the first call reaches the
    converter or the store, and every call returns what the first returned:
    a handle is stored at most once and a failed conversion is not retried.  A file of type [application/pdf] is never
    sent to the converter: its raw bytes are what is stored.  A file of
    another type whose conversion fails is never stored. *)
Theorem getPDFHandle_converts_and_stores_once (n : nat) (u : HandleUploader) :
  getPDFHandle_times (S n) u
  = (fst (fst (getPDFHandle u)), repeat (snd (fst (getPDFHandle u))) (S n),
     snd (getPDFHandle u))
  /\
  (forall file,
      u = {| hu_uploader := newFileUploader file; hu_pdfHandle := None |} ->
      (file_type file = "application/pdf" ->
       fst (getPDFHandle u)
       = ([data_store (file_bytes file)], Some (Data_store (file_bytes file))))
      /\
      (file_type file <> "application/pdf" ->
       convert_pdf (file_name file) (file_type file) (file_bytes file) = None ->
       fst (getPDFHandle u)
       = ([conversion_request (file_name file) (file_type file) (file_bytes file)],
          None))).
Proof.
  split.
  - cbn [getPDFHandle_times repeat].
    rewrite (getPDFHandle_times_settled n _ _ (getPDFHandle_settles u)).
    cbn [fst snd]. rewrite app_nil_r. reflexivity.
  - intros file ->. unfold getPDFHandle, newFileUploader.
    cbn [hu_pdfHandle hu_uploader fu_file fu_needsConversion]. split.
    + intros ->. cbn [String.eqb negb].
      change (String.eqb "application/pdf" "application/pdf") with true.
      cbn [negb fst]. rewrite getSourceBuffer_bytes. reflexivity.
    + intros Hty Hfail. apply String.eqb_neq in Hty. rewrite Hty. cbn [negb].
      rewrite Hfail. reflexivity.
Qed.

End CachingProperties.

(** ** base64url *)

Lemma append_assoc (s1 s2 s3 : string) :
  String.append (String.append s1 s2) s3 = String.append s1 (String.append s2 s3).
Proof.
  induction s1 as [| a rest IH]; [reflexivity |].
  rewrite !append_cons. f_equal. exact IH.
Qed.

Lemma replace_all_app (c : ascii) (by_ s1 s2 : string) :
  replace_all c by_ (String.append s1 s2)
  = String.append (replace_all c by_ s1) (replace_all c by_ s2).
Proof.
  induction s1 as [| a rest IH]; [reflexivity |].
  rewrite append_cons. cbn [replace_all]. rewrite IH.
  destruct (Ascii.eqb a c); [rewrite append_assoc | rewrite append_cons]; reflexivity.
Qed.

Lemma replace_all_absent (c : ascii) (by_ s : string) :
  contains_char c s = false -> replace_all c by_ s = s.
Proof.
  induction s as [| a rest IH]; cbn; [reflexivity |].
  intros H. apply orb_false_iff in H as [Ha Hrest]. rewrite Ha, IH by assumption.
  reflexivity.
Qed.

Lemma replace_all_padding (n : nat) : replace_all "=" "" (padding n) = "".
Proof. induction n as [| n IH]; [reflexivity |]. cbn. exact IH. Qed.

Lemma contains_char_padding (c : ascii) (n : nat) :
  c <> "="%char -> contains_char c (padding n) = false.
Proof.
  intros Hc. induction n as [| n IH]; [reflexivity |].
  change (padding (S n)) with (String "=" (padding n)). cbn [contains_char].
  rewrite IH, orb_false_r. apply Ascii.eqb_neq. congruence.
Qed.

Lemma length_replace_char (c b : ascii) (s : string) :
  String.length (replace_all c (String b "") s) = String.length s.
Proof.
  induction s as [| a rest IH]; [reflexivity |].
  cbn [replace_all]. destruct (Ascii.eqb a c);
    [rewrite append_cons, append_empty |]; cbn [String.length]; f_equal; exact IH.
Qed.

Lemma round_up_to_four (n : Z) (k : nat) :
  0 <= n -> (k < 4)%nat -> (n + Z.of_nat k) mod 4 = 0 -> n + 3 < 2 ^ 31 ->
  to_int32 (Z.land (to_int32 (n + 3)) (to_int32 (Z.lnot 3))) = n + Z.of_nat k.
Proof.
  intros Hn Hk Hmod Hmax.
  assert (H3 : to_int32 (n + 3) = n + 3).
  { unfold to_int32. rewrite Z.mod_small; lia. }
  rewrite H3. change (to_int32 (Z.lnot 3)) with (Z.lnot (Z.ones 2)).
  rewrite <- Z.ldiff_land, Z.ldiff_ones_r by lia.
  rewrite Z.shiftr_div_pow2, Z.shiftl_mul_pow2 by lia.
  change (2 ^ 2) with 4.
  apply Z.mod_divide in Hmod; [| lia]. destruct Hmod as [q Hq].
  assert (Hdiv : (n + 3) / 4 = q).
  { symmetry. apply (Z.div_unique (n + 3) 4 q (3 - Z.of_nat k)); lia. }
  rewrite Hdiv. unfold to_int32. rewrite Z.mod_small; lia.
Qed.

Lemma padEnd_padding (target : Z) (k : nat) (s : string) :
  target = Z.of_nat (String.length s) + Z.of_nat k ->
  padEnd target "=" s = String.append s (padding k).
Proof.
  intros ->. unfold padEnd, padding. do 3 f_equal. lia.
Qed.

Lemma url_layer_inverse (body tail : string) :
  contains_char "-" body = false -> contains_char "_" body = false ->
  replace_all "_" "/"
    (replace_all "-" "+"
       (String.append (replace_all "/" "_" (replace_all "+" "-" body)) tail))
  = String.append body (replace_all "_" "/" (replace_all "-" "+" tail)).
Proof.
  induction body as [| a rest IH]; [reflexivity |].
  cbn [contains_char]. intros Hm Hu.
  apply orb_false_iff in Hm as [Hm Hm']. apply orb_false_iff in Hu as [Hu Hu'].
  specialize (IH Hm' Hu').
  cbn [replace_all].
  destruct (Ascii.eqb_spec a "+") as [-> | Hplus].
  - rewrite !append_cons, append_empty. cbn [replace_all].
    change (Ascii.eqb "-" "/") with false. cbn iota.
    rewrite append_cons. cbn [replace_all].
    change (Ascii.eqb "-" "-") with true. cbn iota.
    rewrite append_cons, append_empty. cbn [replace_all].
    change (Ascii.eqb "+" "_") with false. cbn iota.
    rewrite IH. reflexivity.
  - cbn [replace_all].
    destruct (Ascii.eqb_spec a "/") as [-> | Hslash].
    + rewrite !append_cons, append_empty. cbn [replace_all].
      change (Ascii.eqb "_" "-") with false. cbn iota.
      cbn [replace_all]. change (Ascii.eqb "_" "_") with true. cbn iota.
      rewrite append_cons, append_empty. rewrite IH. reflexivity.
    + rewrite append_cons. cbn [replace_all]. rewrite Hm. cbn [replace_all].
      rewrite Hu. rewrite IH. reflexivity.
Qed.

(** X13. [fromBase64url] undoes what [toBase64url] did to the text of [btoa]
    before it calls [atob]: for a base64 text shorter than 2^31 - 3
    characters whose length is a multiple of four, made of a body without
    [=], [-] or [_] and fewer than four trailing [=], stripping the padding
    and swapping [+] and [/] for [-] and [_], then padding to the next
    multiple of four and swapping back, gives the text again. *)
Theorem fromBase64url_restores_the_base64_text (body : string) (k : nat) :
  contains_char "=" body = false ->
  contains_char "-" body = false ->
  contains_char "_" body = false ->
  (k < 4)%nat ->
  (Z.of_nat (String.length body) + Z.of_nat k) mod 4 = 0 ->
  Z.of_nat (String.length body) + 3 < 2 ^ 31 ->
  url_to_base64 (base64_to_url (String.append body (padding k)))
  = String.append body (padding k).
Proof.
  intros Heq Hminus Hunder Hk Hmod Hmax.
  unfold base64_to_url. rewrite replace_all_app, replace_all_padding.
  rewrite (replace_all_absent "=" "" body Heq).
  replace (String.append body "") with body.
  2:{ clear. induction body as [| a rest IH]; [reflexivity |].
      rewrite append_cons. f_equal. exact IH. }
  unfold url_to_base64. rewrite !length_replace_char.
  rewrite (round_up_to_four _ k) by (assumption || lia).
  rewrite (padEnd_padding _ k) by (rewrite !length_replace_char; reflexivity).
  rewrite url_layer_inverse by assumption.
  rewrite (replace_all_absent "-" "+" (padding k))
    by (apply contains_char_padding; discriminate).
  rewrite (replace_all_absent "_" "/" (padding k))
    by (apply contains_char_padding; discriminate).
  reflexivity.
Qed.

(** ** The throttle keeps one timer and the most recent function *)

Section ThrottleProperties.
Context {F : Type}.

Lemma last_cons_default {A : Type} (l : list A) (a d : A) :
  List.last (a :: l) d = List.last l a.
Proof.
  revert a d. induction l as [| x l IH]; intros a d; [reflexivity |].
  change (List.last (a :: x :: l) d) with (List.last (x :: l) d).
  rewrite !IH. reflexivity.
Qed.

Lemma throttledInvoke_first (key : string) (time : Z) (fn : F) (now : Z)
    (th : Throttles F) :
  time <> -1 -> throttle_pending key th = false ->
  let r := throttledInvoke key time fn now th in
  let remaining :=
    match throttle_lastInvoke key th with
    | Some l => if truthy_number (Some l) then l + time - now else 0
    | None => 0
    end in
  snd r = [setTimeout_throttle key (Z.max 0 remaining)] /\
  throttle_pending key (fst r) = true /\
  throttle_fn key (fst r) = Some fn /\
  throttle_lastInvoke key (fst r) = throttle_lastInvoke key th.
Proof.
  intros Htime Hp. apply Z.eqb_neq in Htime.
  unfold throttledInvoke. rewrite Htime.
  unfold throttle_pending, throttle_lastInvoke, throttle_fn in *.
  destruct th as [throttles |].
  - destruct (throttles !! key) as [spec |] eqn:Hk; cbn [ts_timeout ts_fn ts_lastInvoke].
    + rewrite Hp. cbn [fst snd]. rewrite lookup_insert_eq. cbn. repeat split.
    + cbn [fst snd]. rewrite lookup_insert_eq. cbn. repeat split.
  - rewrite lookup_empty. cbn [ts_timeout ts_fn ts_lastInvoke fst snd].
    rewrite lookup_insert_eq. cbn. repeat split.
Qed.

Lemma throttledInvoke_pending (key : string) (time : Z) (fn : F) (now : Z)
    (th : Throttles F) :
  time <> -1 -> throttle_pending key th = true ->
  let r := throttledInvoke key time fn now th in
  snd r = [] /\
  throttle_pending key (fst r) = true /\
  throttle_fn key (fst r) = Some fn /\
  throttle_lastInvoke key (fst r) = throttle_lastInvoke key th.
Proof.
  intros Htime Hp. apply Z.eqb_neq in Htime.
  unfold throttledInvoke. rewrite Htime.
  unfold throttle_pending, throttle_lastInvoke, throttle_fn in *.
  destruct th as [throttles |]; [| discriminate].
  destruct (throttles !! key) as [spec |] eqn:Hk; [| discriminate].
  cbn [ts_timeout ts_fn ts_lastInvoke]. rewrite Hp. cbn [fst snd].
  rewrite lookup_insert_eq. cbn. repeat split.
Qed.

Lemma throttled_calls_pending (key : string) (calls : list (Z * F * Z))
    (th : Throttles F) (fn : F) :
  Forall (fun c => fst (fst c) <> -1) calls ->
  throttle_pending key th = true -> throttle_fn key th = Some fn ->
  let r := throttled_calls key calls th in
  snd r = [] /\
  throttle_pending key (fst r) = true /\
  throttle_fn key (fst r) = Some (List.last (map (fun c => snd (fst c)) calls) fn) /\
  throttle_lastInvoke key (fst r) = throttle_lastInvoke key th.
Proof.
  revert th fn. induction calls as [| [[time f] now] rest IH]; intros th fn Hall Hp Hfn.
  - cbn. repeat split; assumption.
  - inversion Hall as [| ? ? Htime Hrest]; subst. cbn [fst snd] in Htime.
    destruct (throttledInvoke_pending key time f now th Htime Hp)
      as (Hout & Hp1 & Hfn1 & Hl1).
    destruct (IH _ f Hrest Hp1 Hfn1) as (Hout' & Hp' & Hfn' & Hl').
    cbn [throttled_calls fst snd]. rewrite Hout, Hout'. cbn [app].
    split; [reflexivity |]. split; [assumption |]. split; [| congruence].
    rewrite Hfn'. f_equal. cbn [map fst snd]. symmetry. apply last_cons_default.
Qed.

Lemma throttle_fires_pending (key : string) (now : Z) (th : Throttles F) (fn : F) :
  throttle_pending key th = true -> throttle_fn key th = Some fn ->
  let r := throttle_fires key now th in
  snd r = [invoke fn] /\
  throttle_pending key (fst r) = false /\
  throttle_lastInvoke key (fst r) = Some now.
Proof.
  intros Hp Hfn. unfold throttle_fires.
  unfold throttle_pending, throttle_lastInvoke, throttle_fn in *.
  destruct th as [throttles |]; [| discriminate].
  destruct (throttles !! key) as [spec |] eqn:Hk; [| discriminate].
  rewrite Hp, Hfn. cbn [fst snd]. rewrite lookup_insert_eq. cbn. repeat split.
Qed.

(** X14. When no timer is pending for a key, a throttled call sets exactly
    one timer, whose delay is never negative and, after an earlier
    invocation at a non-zero time [l], ends no sooner than [l + time].  Any
    further throttled calls for the key before the timer fires set no timer
    and invoke nothing; when the timer fires it invokes the function of the
    most recent call only, records the time, and leaves no timer pending. *)
Theorem throttledInvoke_coalesces_to_the_latest_call (key : string) (time : Z)
    (fn : F) (now : Z) (calls : list (Z * F * Z)) (fired : Z) (th : Throttles F) :
  time <> -1 ->
  Forall (fun c => fst (fst c) <> -1) calls ->
  throttle_pending key th = false ->
  let r1 := throttledInvoke key time fn now th in
  let r2 := throttled_calls key calls (fst r1) in
  let r3 := throttle_fires key fired (fst r2) in
  (exists delay,
      snd r1 = [setTimeout_throttle key delay] /\ 0 <= delay /\
      (forall l, throttle_lastInvoke key th = Some l -> l <> 0 ->
                 l + time <= now + delay)) /\
  snd r2 = [] /\
  snd r3 = [invoke (List.last (map (fun c => snd (fst c)) calls) fn)] /\
  throttle_pending key (fst r3) = false /\
  throttle_lastInvoke key (fst r3) = Some fired.
Proof.
  intros Htime Hall Hp r1 r2 r3. subst r1 r2 r3.
  destruct (throttledInvoke_first key time fn now th Htime Hp)
    as (Hout1 & Hp1 & Hfn1 & Hl1).
  destruct (throttled_calls_pending key calls _ fn Hall Hp1 Hfn1)
    as (Hout2 & Hp2 & Hfn2 & Hl2).
  destruct (throttle_fires_pending key fired _ _ Hp2 Hfn2) as (Hout3 & Hp3 & Hl3).
  split; [| repeat split; assumption].
  eexists. split; [exact Hout1 |]. split; [lia |].
  intros l Hl Hnz. rewrite Hl. cbn [truthy_number].
  apply Z.eqb_neq in Hnz. rewrite Hnz. cbn [negb]. lia.
Qed.

End ThrottleProperties.

(** ** The view's busy state *)

Lemma view_step_sync_needs_active (e : ViewEvent) (s : ViewActivity) :
  (va_syncPlaceOnRelease s = true -> va_userIsActive s = true) ->
  va_syncPlaceOnRelease (fst (view_step e s)) = true ->
  va_userIsActive (fst (view_step e s)) = true.
Proof.
  intros Hinv. destruct e as [[|] | | | | viewId | |]; cbn [view_step].
  - cbn. discriminate.
  - cbn. assumption.
  - unfold docMouseUp. destruct (va_trackingMouseDrag s); cbn; [discriminate | assumption].
  - cbn. intros _. reflexivity.
  - unfold suppression_fires. destruct (va_suppressionTimer s); cbn;
      [discriminate | assumption].
  - unfold onUpdatePlace. destruct (String.eqb (va_viewId s) viewId); cbn;
      [discriminate |].
    destruct (va_userIsActive s) eqn:Ha; cbn; [reflexivity |].
    intros H. specialize (Hinv H). congruence.
  - cbn. assumption.
  - cbn. assumption.
Qed.

Lemma view_run_keeps_busy (own : string) (events : list ViewEvent) (s : ViewActivity) :
  va_viewId s = own ->
  va_userIsActive s = true ->
  Forall (keeps_busy own) events ->
  let r := view_run events s in
  ~ In syncPlaceWithModel (snd r) /\
  va_viewId (fst r) = own /\
  va_userIsActive (fst r) = true /\
  va_trackingMouseDrag (fst r) = va_trackingMouseDrag s /\
  (va_syncPlaceOnRelease s = true -> va_syncPlaceOnRelease (fst r) = true) /\
  (va_suppressionTimer s = true -> va_suppressionTimer (fst r) = true).
Proof.
  revert s. induction events as [| e rest IH]; intros s Hid Ha Hall.
  - cbn. repeat split; auto.
  - inversion Hall as [| ? ? He Hrest]; subst.
    cbn [view_run fst snd].
    assert (Hstep : ~ In syncPlaceWithModel (snd (view_step e s)) /\
                    va_viewId (fst (view_step e s)) = va_viewId s /\
                    va_userIsActive (fst (view_step e s)) = true /\
                    va_trackingMouseDrag (fst (view_step e s))
                    = va_trackingMouseDrag s /\
                    (va_syncPlaceOnRelease s = true ->
                     va_syncPlaceOnRelease (fst (view_step e s)) = true) /\
                    (va_suppressionTimer s = true ->
                     va_suppressionTimer (fst (view_step e s)) = true)).
    { destruct e as [c | | | | viewId | |]; cbn [keeps_busy] in He; try contradiction.
      - cbn. rewrite Ha. split; [| repeat split; auto].
        destruct (va_suppressionTimer s); cbn; intros Hin;
          repeat (destruct Hin as [Hin | Hin]; [discriminate Hin |]); exact Hin.
      - cbn [view_step]. unfold onUpdatePlace.
        rewrite (proj2 (String.eqb_neq _ _)) by congruence.
        rewrite Ha. cbn. split; [intros [] | repeat split; auto].
      - cbn. split; [intros [] | repeat split; auto]. }
    destruct Hstep as (Hno & Hid1 & Ha1 & Ht1 & Hs1 & Htm1).
    destruct (IH (fst (view_step e s)) Hid1 Ha1 Hrest)
      as (Hno' & Hid' & Ha' & Ht' & Hs' & Htm').
    repeat split; auto; try congruence.
    intros Hin. apply in_app_or in Hin as [Hin | Hin]; contradiction.
Qed.

(** X15. From the busy state the constructor leaves and after any events, a
    sync is only ever pending while the user is active.  If a place update of
    another view arrives while the user is active, then through any further
    local moves, refused publications and updates of other views the model's
    place is not applied to the renderer; it is applied exactly once when the
    activity ends, by the mouse-up that ends a drag or by the quiet-period
    timer, after which the user is inactive, no sync is pending and the clash
    warning is off.  When the user is not active the update is applied at
    once; an update carrying the view's own id is never applied. *)
Theorem remote_place_update_is_deferred_until_release :
  (forall viewId events,
      let s := fst (view_run events (view_start viewId)) in
      va_syncPlaceOnRelease s = true -> va_userIsActive s = true)
  /\
  (forall s other more,
      va_userIsActive s = true ->
      other <> va_viewId s ->
      Forall (keeps_busy (va_viewId s)) more ->
      let r := view_run (place_update other :: more) s in
      ~ In syncPlaceWithModel (snd r) /\
      (va_trackingMouseDrag s = true ->
       snd (view_step mouse_up (fst r))
       = [view_publish "scroll" "endInteraction" (va_viewId s);
          syncPlaceWithModel]) /\
      (va_suppressionTimer s = true ->
       snd (view_step quiet_period_over (fst r)) = [syncPlaceWithModel]) /\
      (forall e, e = mouse_up \/ e = quiet_period_over ->
                 snd (view_step e (fst r)) <> [] ->
                 va_userIsActive (fst (view_step e (fst r))) = false /\
                 va_syncPlaceOnRelease (fst (view_step e (fst r))) = false /\
                 va_clash (fst (view_step e (fst r))) = false))
  /\
  (forall s viewId,
      (va_userIsActive s = false -> viewId <> va_viewId s ->
       snd (onUpdatePlace viewId s) = [syncPlaceWithModel]) /\
      snd (onUpdatePlace (va_viewId s) s) = []).
Proof.
  split; [| split].
  - intros viewId events.
    assert (H : forall s0,
               (va_syncPlaceOnRelease s0 = true -> va_userIsActive s0 = true) ->
               va_syncPlaceOnRelease (fst (view_run events s0)) = true ->
               va_userIsActive (fst (view_run events s0)) = true).
    { induction events as [| e rest IH]; intros s0 Hinv; cbn [view_run fst];
        [assumption |].
      apply IH. apply view_step_sync_needs_active, Hinv. }
    apply H. discriminate.
  - intros s other more Ha Hother Hmore r. subst r.
    assert (Hall : Forall (keeps_busy (va_viewId s)) (place_update other :: more)).
    { constructor; [exact Hother | exact Hmore]. }
    destruct (view_run_keeps_busy (va_viewId s) _ s eq_refl Ha Hall)
      as (Hno & Hid & Ha' & Ht & _ & Htm).
    assert (Hsync : va_syncPlaceOnRelease
                      (fst (view_run (place_update other :: more) s)) = true).
    { cbn [view_run fst].
      assert (H1 : va_syncPlaceOnRelease (fst (view_step (place_update other) s))
                   = true).
      { cbn [view_step]. unfold onUpdatePlace.
        rewrite (proj2 (String.eqb_neq _ _)) by congruence. rewrite Ha. reflexivity. }
      assert (H2 : va_viewId (fst (view_step (place_update other) s)) = va_viewId s).
      { cbn [view_step]. unfold onUpdatePlace.
        destruct (String.eqb _ _); [| destruct (va_userIsActive s)]; reflexivity. }
      assert (H3 : va_userIsActive (fst (view_step (place_update other) s)) = true).
      { cbn [view_step]. unfold onUpdatePlace.
        rewrite (proj2 (String.eqb_neq _ _)) by congruence. rewrite Ha. reflexivity. }
      exact (proj1 (proj2 (proj2 (proj2 (proj2
               (view_run_keeps_busy (va_viewId s) more _ H2 H3 Hmore))))) H1). }
    set (s' := fst (view_run (place_update other :: more) s)) in *.
    split; [exact Hno |]. split; [| split].
    + intros Htrack. cbn [view_step]. unfold docMouseUp.
      rewrite Ht, Htrack. cbn [negb fst snd].
      unfold releaseUserActive. cbn [va_syncPlaceOnRelease va_viewId fst snd].
      rewrite Hsync, Hid. reflexivity.
    + intros Htimer. cbn [view_step]. unfold suppression_fires.
      rewrite (Htm Htimer).
      unfold releaseUserActive. cbn [va_syncPlaceOnRelease fst snd].
      rewrite Hsync. reflexivity.
    + intros e [-> | ->]; cbn [view_step].
      * unfold docMouseUp. destruct (va_trackingMouseDrag s'); cbn;
          [repeat split | contradiction].
      * unfold suppression_fires. destruct (va_suppressionTimer s'); cbn;
          [repeat split | contradiction].
  - intros s viewId. split.
    + intros Ha Hne. unfold onUpdatePlace.
      rewrite (proj2 (String.eqb_neq _ _)) by congruence. rewrite Ha. reflexivity.
    + unfold onUpdatePlace. rewrite String.eqb_refl. reflexivity.
Qed.

(** ** What the end of a drag tells the model *)

Lemma view_step_publishes_to_scroll (e : ViewEvent) (s : ViewActivity)
    (scope event v : string) :
  In (view_publish scope event v) (snd (view_step e s)) ->
  scope = "scroll" /\ event = "endInteraction".
Proof.
  destruct e as [c | | | | viewId | |]; cbn [view_step].
  - unfold docMouseDown. destruct (negb c); [intros [] |].
    destruct (va_suppressionTimer s); cbn; [intros [H | []]; discriminate | intros []].
  - unfold docMouseUp. destruct (negb (va_trackingMouseDrag s)); [intros [] |].
    cbn. intros [H | H]; [injection H as <- <- _; split; reflexivity |].
    destruct (va_syncPlaceOnRelease s); cbn in H;
      [destruct H as [H | []]; discriminate | contradiction].
  - cbn. destruct (va_suppressionTimer s); cbn;
      [intros [H | [H | []]]; discriminate | intros [H | []]; discriminate].
  - unfold suppression_fires. destruct (va_suppressionTimer s); [| intros []].
    cbn. destruct (va_syncPlaceOnRelease s); cbn;
      [intros [H | []]; discriminate | intros []].
  - unfold onUpdatePlace. destruct (String.eqb _ _); [intros [] |].
    destruct (va_userIsActive s); cbn; [intros [] | intros [H | []]; discriminate].
  - cbn. intros [].
  - cbn. intros [].
Qed.

(** X16. Whatever happens at a view, the only message its mouse, timer and
    place-update handlers publish is [endInteraction] in scope [scroll], and
    for no session id has the model a handler subscribed to it: the model's
    [endInteraction] is subscribed in scope [place], and is the only handler
    there for that event, so it is not run when a drag ends. *)
Theorem docMouseUp_message_reaches_no_model_handler (sessionId : string)
    (events : list ViewEvent) (s : ViewActivity) (scope event v : string) :
  In (view_publish scope event v) (snd (view_run events s)) ->
  scope = "scroll" /\ event = "endInteraction" /\
  subscribed_handlers sessionId scope event = [] /\
  subscribed_handlers sessionId "place" "endInteraction" = [h_endInteraction].
Proof.
  intros Hin.
  assert (H : scope = "scroll" /\ event = "endInteraction").
  { revert s Hin. induction events as [| e rest IH]; intros s; cbn [view_run snd];
      [intros [] |].
    intros Hin. apply in_app_or in Hin as [Hin | Hin].
    - eapply view_step_publishes_to_scroll, Hin.
    - eapply IH, Hin. }
  destruct H as [-> ->]. split; [reflexivity |]. split; [reflexivity |].
  unfold subscribed_handlers, model_subscriptions.
  cbn [List.filter fst snd].
  change (String.eqb "view-exit" "endInteraction") with false.
  rewrite !andb_false_r. split; reflexivity.
Qed.


(** ** Cancelling a throttle *)

Section ThrottleClearing.
Context {F : Type}.

(** X17. [clearThrottledInvoke] cancels the timer of its key exactly when one
    is pending and forgets the key: afterwards no timer is pending for it and
    its last invocation time is gone, so the next throttled call for the key
    sets a timer with delay 0 however recent the last invocation was.  The
    throttle of every other key is as it was. *)
Theorem clearThrottledInvoke_forgets_only_its_key (key : string) (th : Throttles F) :
  let r := clearThrottledInvoke key th in
  snd r = (if throttle_pending key th then [clearTimeout_throttle key] else []) /\
  throttle_pending key (fst r) = false /\
  throttle_lastInvoke key (fst r) = None /\
  (forall time fn now,
      time <> -1 ->
      snd (throttledInvoke key time fn now (fst r)) = [setTimeout_throttle key 0]) /\
  (forall k, k <> key ->
             throttle_pending k (fst r) = throttle_pending k th /\
             throttle_fn k (fst r) = throttle_fn k th /\
             throttle_lastInvoke k (fst r) = throttle_lastInvoke k th).
Proof.
  cbn zeta.
  assert (Hp : throttle_pending key (fst (clearThrottledInvoke key th)) = false).
  { unfold clearThrottledInvoke, throttle_pending.
    destruct th as [throttles |]; cbn [fst]; [| reflexivity].
    rewrite lookup_delete_eq. reflexivity. }
  assert (Hl : throttle_lastInvoke key (fst (clearThrottledInvoke key th)) = None).
  { unfold clearThrottledInvoke, throttle_lastInvoke.
    destruct th as [throttles |]; cbn [fst]; [| reflexivity].
    rewrite lookup_delete_eq. reflexivity. }
  split; [| split; [exact Hp | split; [exact Hl | split]]].
  - unfold clearThrottledInvoke, throttle_pending.
    destruct th as [throttles |]; cbn [snd]; [| reflexivity].
    destruct (throttles !! key) as [spec |]; reflexivity.
  - intros time fn now Htime.
    destruct (throttledInvoke_first key time fn now _ Htime Hp) as (Hout & _).
    rewrite Hout, Hl. reflexivity.
  - intros k Hk. unfold clearThrottledInvoke, throttle_pending, throttle_fn,
      throttle_lastInvoke.
    destruct th as [throttles |]; cbn [fst]; [| repeat split].
    rewrite lookup_delete_ne by congruence. repeat split.
Qed.

End ThrottleClearing.

(** ** The source hash as a key and a file name *)

Lemma contains_char_app (c : ascii) (s1 s2 : string) :
  contains_char c (String.append s1 s2) = contains_char c s1 || contains_char c s2.
Proof.
  induction s1 as [| a s1 IH]; [rewrite append_empty; reflexivity |].
  rewrite append_cons. cbn [contains_char]. rewrite IH, orb_assoc. reflexivity.
Qed.

Lemma replace_all_removes (c : ascii) (by_ s : string) :
  contains_char c by_ = false -> contains_char c (replace_all c by_ s) = false.
Proof.
  intros Hby. induction s as [| a s IH]; [reflexivity |].
  cbn [replace_all]. destruct (Ascii.eqb a c) eqn:Hac.
  - rewrite contains_char_app, Hby, IH. reflexivity.
  - cbn [contains_char]. rewrite Hac, IH. reflexivity.
Qed.

Lemma replace_all_keeps_absent (c d : ascii) (by_ s : string) :
  contains_char c by_ = false -> contains_char c s = false ->
  contains_char c (replace_all d by_ s) = false.
Proof.
  intros Hby. induction s as [| a s IH]; [reflexivity |].
  cbn [contains_char]. intros Hs. apply orb_false_iff in Hs as [Hac Hs].
  cbn [replace_all]. destruct (Ascii.eqb a d).
  - rewrite contains_char_app, Hby, (IH Hs). reflexivity.
  - cbn [contains_char]. rewrite Hac, (IH Hs). reflexivity.
Qed.

Section HashText.
Context {BR : Browser}.

(** X18. Whatever text [btoa] returns for the digest, the source hash an
    uploader computes contains none of the characters [=], [+] and [/]:
    every occurrence is removed or replaced, and no later replacement brings
    one back.  The constant returned for an empty typed array is of the same
    kind. *)
Theorem source_hash_has_no_padding_plus_or_slash (u : FileUploader) :
  let hash := snd (hashSourceBuffer u) in
  contains_char "=" hash = false /\
  contains_char "+" hash = false /\
  contains_char "/" hash = false.
Proof.
  cbn zeta. unfold hashSourceBuffer.
  destruct (bool_decide _); cbn [snd]; [repeat split; reflexivity |].
  unfold toBase64url. repeat split.
  - apply replace_all_keeps_absent; [reflexivity |].
    apply replace_all_keeps_absent; [reflexivity |].
    apply replace_all_removes. reflexivity.
  - apply replace_all_keeps_absent; [reflexivity |].
    apply replace_all_removes. reflexivity.
  - apply replace_all_removes. reflexivity.
Qed.

End HashText.

(** ** An upload from the drop to the document *)

Lemma run_beside_load (log : list (Z * Command)) (m : PDFModel)
    (c0 h : string) (t0 : Z) :
  interactionStatus m = load_granted c0 h t0 -> c0 <> "" ->
  Forall (fun e => beside_load c0 (snd e)) log ->
  run log m = m.
Proof.
  intros Hst Hne Hall. induction log as [| [t c] rest IH]; cbn [run]; [reflexivity |].
  inversion Hall as [| ? ? Hc Hrest]; subst; cbn [snd] in Hc.
  rewrite (deliver_beside_load t c m c0 h t0 Hst Hne Hc). cbn [fst].
  apply IH, Hrest.
Qed.

(** X19. When a view drops a file the session does not know and its
    [load:request] reaches the model while no upload of the same bytes is
    under way, the request is approved; the view, once its uploader has a
    handle, answers the approval with a [load:start]; and whatever navigation,
    lease checks, and ends of interaction or exits of other clients come in
    between, that [load:start] is accepted: the document becomes the
    session's document, the lock is released, the place is reset, the
    session is persisted and [load:ready] is published for the dropped file,
    after which every view can fetch the document by its hash. *)
Theorem upload_completes_despite_navigation (v : PDFView) (seen m : PDFModel)
    (sourceHash fileName : string) (req : LoadRequest) (handle : Handle)
    (t t' : Z) (log : list (Z * Command)) :
  v_viewId v <> "" ->
  uploadFile_publish v seen sourceHash fileName = Some (load_request req) ->
  ~ (is_lock (interactionStatus m) = Some LockLoad /\
     is_sourceHash (interactionStatus m) = Some sourceHash) ->
  Forall (fun e => beside_load (v_viewId v) (snd e)) log ->
  let approved := deliver t (load_request req) m in
  snd approved = [publish_load_approved req] /\
  exists start,
    onLoadApproved_publish v req (Some (Some handle)) = Some (load_start start) /\
    let r := deliver t' (load_start start) (run log (fst approved)) in
    docSourceHash (fst r) = Some sourceHash /\
    interactionStatus (fst r) = emptyStatus /\
    placeState (fst r) =
      ({| scroll_page := None; scroll_top := 0; scroll_left := 0 |},
       ScaleNumber 1, 0, 0) /\
    is_Some (loadFromSourceHash (fst r) sourceHash true) /\
    (knownHandles m !! sourceHash = None ->
     loadFromSourceHash (fst r) sourceHash false
     = Some {| dl_toast := String.append "reading " fileName;
               dl_fetch := handle |}) /\
    snd r = [persistSession (getPersistedData (fst r));
             publish_load_ready (Some (v_viewId v)) sourceHash fileName None].
Proof.
  intros Hne Hpub Hfree Hall.
  assert (Hreq : req = {| lr_viewId := v_viewId v; lr_sourceHash := sourceHash;
                          lr_name := fileName;
                          lr_userDescription := Some (getUserDescription v) |}).
  { unfold uploadFile_publish in Hpub.
    destruct (bool_decide (Some sourceHash = v_docSourceHash v)); [discriminate |].
    destruct (knownHandles seen !! sourceHash); [discriminate |].
    apply (inj Some) in Hpub. injection Hpub as <-. reflexivity. }
  subst req. cbn zeta.
  rewrite deliver_load_request. cbn [lr_sourceHash lr_viewId].
  assert (Hno : bool_decide (is_lock (interactionStatus m) = Some LockLoad)
                && bool_decide (is_sourceHash (interactionStatus m) = Some sourceHash)
                = false).
  { apply andb_false_iff.
    destruct (decide (is_lock (interactionStatus m) = Some LockLoad)) as [Hl | Hl].
    - right. apply bool_decide_eq_false_2. intros Hh. apply Hfree. split; assumption.
    - left. apply bool_decide_eq_false_2. exact Hl. }
  rewrite Hno. cbn [fst snd]. split; [reflexivity |].
  eexists. split.
  { unfold onLoadApproved_publish. cbn [lr_viewId lr_sourceHash lr_name].
    rewrite String.eqb_refl. reflexivity. }
  set (m1 := set_interactionStatus (load_granted (v_viewId v) sourceHash t) m).
  rewrite (run_beside_load log m1 (v_viewId v) sourceHash t eq_refl Hne Hall).
  rewrite deliver_load_start.
  unfold superseded. cbn [ls_userDescription ls_sourceHash ls_name ls_viewId].
  assert (Hsame : bool_decide (Some sourceHash = is_sourceHash (interactionStatus m1))
                  = true) by (apply bool_decide_eq_true_2; reflexivity).
  rewrite Hsame, andb_false_r. cbn [fst snd].
  split; [reflexivity |]. split; [reflexivity |]. split; [reflexivity |].
  unfold loadFromSourceHash, loaded, registered.
  cbn [knownHandles ls_sourceHash ls_handle ls_name].
  change (knownHandles m1) with (knownHandles m).
  split; [| split; [| reflexivity]].
  - destruct (decide (is_Some (knownHandles m !! sourceHash))) as [[e Hk] | Hk].
    + rewrite bool_decide_eq_true_2 by (rewrite Hk; eexists; reflexivity).
      rewrite Hk. eexists. reflexivity.
    + rewrite bool_decide_eq_false_2 by exact Hk.
      rewrite lookup_insert_eq. eexists. reflexivity.
  - intros Hk.
    rewrite bool_decide_eq_false_2 by (rewrite Hk; apply is_Some_None).
    rewrite lookup_insert_eq. reflexivity.
Qed.

(** ** The end of a drag, from the view to the model *)

Lemma subscribed_scroll_endInteraction (sessionId : string) :
  subscribed_handlers sessionId "scroll" "endInteraction" = [].
Proof.
  unfold subscribed_handlers, model_subscriptions. cbn [List.filter fst snd].
  change (String.eqb "view-exit" "endInteraction") with false.
  rewrite !andb_false_r. reflexivity.
Qed.

Lemma subscribed_place_endInteraction (sessionId : string) :
  subscribed_handlers sessionId "place" "endInteraction" = [h_endInteraction].
Proof.
  unfold subscribed_handlers, model_subscriptions. cbn [List.filter fst snd].
  change (String.eqb "view-exit" "endInteraction") with false.
  rewrite !andb_false_r. reflexivity.
Qed.

(** C6 (where the code departs from it). A view that holds the place lock
    and ends its drag sends its [endInteraction]: [docMouseUp] publishes it,
    and nothing else, in scope [scroll].  The model subscribed its
    [endInteraction] in scope [place], so no handler runs: the model is as it
    was, the place lock is still the view's, and the [place:set] of any other
    client is still refused.  The same message in scope [place] runs
    [endInteraction], which clears the lock. *)
Theorem drag_release_leaves_the_place_lock (sessionId : string) (s : ViewActivity)
    (m : PDFModel) (t0 t t' : Z) (data : PlaceData) :
  va_viewId s <> "" ->
  va_trackingMouseDrag s = true ->
  interactionStatus m = place_granted (va_viewId s) t0 ->
  pd_viewId data <> va_viewId s ->
  (exists rest,
      snd (docMouseUp s)
      = view_publish "scroll" "endInteraction" (va_viewId s) :: rest /\
      forall scope event v, ~ In (view_publish scope event v) rest) /\
  deliver_viewId_message sessionId t "scroll" "endInteraction" (va_viewId s) m
  = Some (m, []) /\
  deliver t' (place_set data) m = (m, []) /\
  deliver_viewId_message sessionId t "place" "endInteraction" (va_viewId s) m
  = Some (set_interactionStatus emptyStatus m, []).
Proof.
  intros Hne Htrack Hst Hother.
  split; [| split; [| split]].
  - unfold docMouseUp. rewrite Htrack. cbn [negb fst snd].
    eexists. split; [reflexivity |].
    intros scope event v. unfold releaseUserActive.
    cbn [va_syncPlaceOnRelease snd].
    destruct (va_syncPlaceOnRelease s); cbn [In]; [intros [H | []] | intros []].
    discriminate H.
  - unfold deliver_viewId_message. rewrite subscribed_scroll_endInteraction.
    reflexivity.
  - rewrite deliver_place_set, Hst.
    rewrite (place_unavailable_to_others (va_viewId s));
      [reflexivity | apply place_granted_wf, Hne | reflexivity | reflexivity
      | exact Hother].
  - unfold deliver_viewId_message. rewrite subscribed_place_endInteraction.
    cbn [run_handlers viewId_command]. rewrite deliver_endInteraction, Hst.
    cbn [place_granted is_viewId].
    rewrite bool_decide_eq_true_2 by reflexivity. reflexivity.
Qed.

(** ** The hash of a file without bytes *)

Section HashOfNothing.
Context {BR : Browser}.

Lemma getSourceHash_of_new_uploader (file : DroppedFile) :
  fst (getSourceHash (newFileUploader file)) = hashSourceBuffer (newFileUploader file).
Proof.
  unfold getSourceHash. cbn [newFileUploader fu_sourceHash fst].
  destruct (hashSourceBuffer _). reflexivity.
Qed.

Lemma hashSourceBuffer_cases (u : FileUploader) :
  (hashSourceBuffer u = ([], EMPTY_HASH) /\ file_bytes (fu_file u) = [])
  \/
  hashSourceBuffer u
  = ([crypto_subtle_digest "SHA-256" (file_bytes (fu_file u))],
     toBase64url (subtle_digest_SHA256 (file_bytes (fu_file u)))).
Proof.
  unfold hashSourceBuffer. rewrite getSourceBuffer_bytes.
  destruct (bool_decide (buffer_length (getSourceBuffer u) = Some 0)) eqn:Hb;
    [left | right; reflexivity].
  split; [reflexivity |].
  apply bool_decide_eq_true in Hb. rewrite <- getSourceBuffer_bytes.
  destruct (getSourceBuffer u) as [bytes | bytes]; [discriminate |].
  cbn [buffer_length buffer_bytes] in *. apply (inj Some) in Hb.
  destruct bytes; [reflexivity | discriminate].
Qed.


End HashOfNothing.

End Properties.

(** * Scenarios on concrete inputs *)

#[local] Existing Instance named_handles.

(** C7, counterexample. On a fresh model the rotation request of client A
    for 90 degrees is approved, and [pagesRotation] is still 0; likewise the
    scroll-mode request for mode 2 is approved and [scrollMode] is still 0. *)
Lemma requestRotation_approved_rotation_unwritten :
  let rot := {| rr_viewId := "A"; rr_rotation := 90 |} in
  let mode := {| sr_viewId := "A"; sr_mode := 2 |} in
  let r1 := deliver 0 (rotation_request rot) fresh_model in
  let r2 := deliver 0 (scrollMode_request mode) fresh_model in
  (snd r1 = [future_checkInteractionStatus 1000; publish_rotation_approved rot]
   /\ pagesRotation (fst r1) = 0
   /\ pagesRotation (fst r1) <> rr_rotation rot)
  /\
  (snd r2 = [future_checkInteractionStatus 1000; publish_scrollMode_approved mode]
   /\ scrollMode (fst r2) = 0
   /\ scrollMode (fst r2) <> sr_mode mode).
Proof.
  cbn zeta. rewrite deliver_rotation_request, deliver_scrollMode_request.
  cbn. repeat split; discriminate.
Qed.


(** C1, witness: after A's [setPlace] at 0 and B's rejected one at 10. *)
Lemma single_lock_holder_witness :
  let log := [(0, place_set (place_of "A" 3)); (10, place_set (place_of "B" 7))] in
  let st := interactionStatus (run log fresh_model) in
  (unlocked st \/ held st) /\
  (is_lock st = None <-> is_viewId st = None) /\
  (forall (h : string) (t : Z) (c : Command),
      is_lock st = Some LockPlace -> is_viewId st = Some h ->
      place_class c = true ->
      deliver t c (run log fresh_model) <> (run log fresh_model, []) ->
      command_viewId c = Some h).
Proof.
  apply (single_lock_holder None 0 fresh_model []
           [(0, place_set (place_of "A" 3)); (10, place_set (place_of "B" 7))]).
  - reflexivity.
  - repeat constructor; cbn; discriminate.
Defined.

(** C2, witness: a second [requestLoad] for the hash being uploaded. *)
Lemma requestLoad_rejected_iff_same_hash_loading_witness :
  let m := fst (deliver 0 (load_request (upload_of "A" "H1" "a.odt")) fresh_model) in
  let data := upload_of "B" "H1" "a.odt" in
  let st := interactionStatus m in
  let duplicate :=
    is_lock st = Some LockLoad /\ is_sourceHash st = Some (lr_sourceHash data) in
  (duplicate /\ deliver 3 (load_request data) m = (m, []))
  \/
  (~ duplicate /\
   deliver 3 (load_request data) m =
     (set_interactionStatus
        {| is_viewId := Some (lr_viewId data);
           is_lock := Some LockLoad;
           is_sourceHash := Some (lr_sourceHash data);
           is_time := Some 3 |} m,
      [publish_load_approved data])).
Proof.
  exact (requestLoad_rejected_iff_same_hash_loading 3 (upload_of "B" "H1" "a.odt")
           (fst (deliver 0 (load_request (upload_of "A" "H1" "a.odt")) fresh_model))).
Defined.

(** C3, witness: A's upload of H1 is overtaken by B's request for H2, and A's
    late [startLoad] for H1 is dropped. *)
Lemma startLoad_superseded_dropped_witness :
  let log := [(0, load_request (upload_of "A" "H1" "a.odt"));
              (5, load_request (upload_of "B" "H2" "b.odt"))] in
  let data := uploaded_of "A" "H1" "handle-1" "a.odt" in
  let m := run log fresh_model in
  let r := deliver 9 (load_start data) m in
  interactionStatus (fst r) = interactionStatus m /\
  placeState (fst r) = placeState m /\
  docSourceHash (fst r) = docSourceHash m /\
  snd r = [console_log "PDFModel: ignoring superseded load of a.odt"].
Proof.
  refine (proj1 (startLoad_superseded_dropped_override_proceeds None 0 fresh_model []
                   [(0, load_request (upload_of "A" "H1" "a.odt"));
                    (5, load_request (upload_of "B" "H2" "b.odt"))]
                   9 (uploaded_of "A" "H1" "handle-1" "a.odt") eq_refl)
            eq_refl _).
  cbn. discriminate.
Defined.


(** C5, witness: the first [setPlace] on a fresh model. *)
Lemma setPlace_granted_iff_free_or_own_place_witness :
  let data := place_of "A" 3 in
  let st := interactionStatus fresh_model in
  let c := pd_viewId data in
  let available :=
    unlocked st \/ (is_lock st = Some LockPlace /\ is_viewId st = Some c) in
  (available /\
   deliver 0 (place_set data) fresh_model =
     ({| scroll := {| scroll_page := Some (pd_page data);
                      scroll_top := pd_top data;
                      scroll_left := pd_left data |};
         relativeScale := pd_scale data;
         pagesRotation := pd_rotation data;
         scrollMode := pd_scrollMode data;
         interactionStatus :=
           {| is_viewId := Some c; is_lock := Some LockPlace;
              is_sourceHash := None; is_time := Some 0 |};
         knownHandles := knownHandles fresh_model;
         docSourceHash := docSourceHash fresh_model |},
      [future_checkInteractionStatus PLACE_TIMEOUT; publish_place_update c]))
  \/
  (~ available /\ deliver 0 (place_set data) fresh_model = (fresh_model, [])).
Proof.
  apply (setPlace_granted_iff_free_or_own_place 0 (place_of "A" 3) fresh_model).
  left. reflexivity.
Defined.

(** C7, witness: the rotation request of the counterexample. *)
Lemma requestRotation_leaves_placeState_witness :
  let data := {| rr_viewId := "A"; rr_rotation := 90 |} in
  let r := deliver 0 (rotation_request data) fresh_model in
  placeState (fst r) = placeState fresh_model /\
  ((place_available "A" (interactionStatus fresh_model) = true /\
    interactionStatus (fst r) = place_granted "A" 0 /\
    snd r = [future_checkInteractionStatus PLACE_TIMEOUT;
             publish_rotation_approved data])
   \/
   (place_available "A" (interactionStatus fresh_model) = false /\
    r = (fresh_model, []))).
Proof.
  exact (proj1 (requestRotation_requestScrollMode_leave_placeState 0 fresh_model)
           {| rr_viewId := "A"; rr_rotation := 90 |}).
Defined.

(** C8, witness: a second [startLoad] for H1 with another handle and name
    does not replace the first entry. *)
Lemma knownHandles_first_writer_wins_witness :
  let first := uploaded_of "A" "H1" "handle-1" "a.odt" in
  let second := uploaded_of "B" "H1" "handle-2" "copy of a.odt" in
  knownHandles (run [(7, load_start second)]
                  (fst (deliver 3 (load_start first) fresh_model))) !! "H1"
  = Some {| he_handle := "handle-1"; he_name := "a.odt" |}.
Proof.
  refine (proj1 (proj2 (proj2 (proj2
            (knownHandles_first_writer_wins fresh_model
               [(7, load_start (uploaded_of "B" "H1" "handle-2" "copy of a.odt"))]))))
            3 (uploaded_of "A" "H1" "handle-1" "a.odt") _).
  reflexivity.
Defined.

(** C10, witness: A's late [startLoad] for H1 is dropped and H1 is
    registered all the same. *)
Lemma dropped_startLoad_still_registers_handle_witness :
  let log := [(0, load_request (upload_of "A" "H1" "a.odt"));
              (5, load_request (upload_of "B" "H2" "b.odt"))] in
  let data := uploaded_of "A" "H1" "handle-1" "a.odt" in
  let m := run log fresh_model in
  let r := deliver 9 (load_start data) m in
  knownHandles (fst r) !! "H1"
  = Some {| he_handle := "handle-1"; he_name := "a.odt" |}.
Proof.
  refine (proj1 (dropped_startLoad_still_registers_handle 9
                   (uploaded_of "A" "H1" "handle-1" "a.odt")
                   (run [(0, load_request (upload_of "A" "H1" "a.odt"));
                         (5, load_request (upload_of "B" "H2" "b.odt"))]
                      fresh_model) _)).
  reflexivity.
Defined.

(** ** The scenarios of the specification, executed *)

(** A sets the place; B's attempt before the lease expires is rejected; after
    the check has fired with no refresh from A, B's retry is applied. *)
Example scenario_lease_handover :
  let w0 := {| w_model := fresh_model; w_clock := 0; w_futures := [] |} in
  let setA := external 0 (place_set (place_of "A" 3)) in
  let tryB := external 400 (place_set (place_of "B" 7)) in
  let retryB := external 1000 (place_set (place_of "B" 7)) in
  (exists w2,
      world_run [setA; tryB] w0 = Some w2 /\
      scroll_page (scroll (w_model w2)) = Some 3 /\
      interactionStatus (w_model w2) = place_granted "A" 0)
  /\
  (exists w4,
      world_run [setA; tryB; fire; retryB] w0 = Some w4 /\
      scroll_page (scroll (w_model w4)) = Some 7 /\
      interactionStatus (w_model w4) = place_granted "B" 1000)
  /\
  world_run [setA; external 1001 (place_set (place_of "B" 7))] w0 = None.
Proof.
  cbn zeta. split; [| split].
  - eexists. split; [vm_compute; reflexivity |]. split; reflexivity.
  - eexists. split; [vm_compute; reflexivity |]. split; reflexivity.
  - vm_compute. reflexivity.
Qed.

(** A client leaves while holding the place lock; the next [setPlace] of
    another client is applied at once. *)
Example scenario_disconnect_frees_lock :
  let m := run [(0, place_set (place_of "A" 3)); (1, view_exit "A");
                (2, place_set (place_of "B" 7))] fresh_model in
  scroll_page (scroll m) = Some 7 /\ interactionStatus m = place_granted "B" 2.
Proof. split; reflexivity. Qed.

(** Two clients drop files with identical bytes: one [load:approved]. *)
Example scenario_identical_uploads :
  run_effects [(0, load_request (upload_of "A" "H1" "a.odt"));
               (1, load_request (upload_of "B" "H1" "a.odt"))] fresh_model
  = [publish_load_approved (upload_of "A" "H1" "a.odt")].
Proof. reflexivity. Qed.

(** A load request pre-empts a place lock, and afterwards the place lock is
    refused even to the client that held it. *)
Example scenario_load_preempts_place :
  let m := run [(0, place_set (place_of "A" 3));
                (5, load_request (upload_of "B" "H1" "a.odt"))] fresh_model in
  interactionStatus m = load_granted "B" "H1" 5 /\
  deliver 6 (place_set (place_of "A" 4)) m = (m, []).
Proof. split; reflexivity. Qed.

(** ** The further properties on concrete inputs *)

(** X1, witness: B holds the place; A's pre-flight check says no and A's
    [place:set] is dropped. *)
Lemma okToPublish_place_agrees_with_setPlace_witness :
  let v := {| v_viewId := "A"; v_userDescription := None; v_docSourceHash := None |} in
  let m := fst (deliver 0 (place_set (place_of "B" 7)) fresh_model) in
  (okToPublish v m "place" = true /\
   snd (deliver 5 (place_set (place_of "A" 3)) m)
   = [future_checkInteractionStatus PLACE_TIMEOUT; publish_place_update "A"])
  \/
  (okToPublish v m "place" = false /\
   deliver 5 (place_set (place_of "A" 3)) m = (m, [])).
Proof.
  apply (okToPublish_place_agrees_with_setPlace
           {| v_viewId := "A"; v_userDescription := None; v_docSourceHash := None |}
           (fst (deliver 0 (place_set (place_of "B" 7)) fresh_model))
           5 (place_of "A" 3)).
  - right. exists "B", LockPlace, 0. split; [discriminate | repeat split].
  - reflexivity.
Defined.

(** X3, witness: while A uploads, B's navigation, B's end of interaction and
    a lease check leave the model as it is. *)
Lemma load_lock_blocks_navigation_witness :
  let m := fst (deliver 0 (load_request (upload_of "A" "H1" "a.odt")) fresh_model) in
  let log := [(1, place_set (place_of "B" 7)); (2, place_endInteraction "B");
              (1000, future_check)] in
  run log m = m /\ run_effects log m = [].
Proof.
  apply (load_lock_blocks_navigation
           [(1, place_set (place_of "B" 7)); (2, place_endInteraction "B");
            (1000, future_check)]
           (fst (deliver 0 (load_request (upload_of "A" "H1" "a.odt")) fresh_model))
           "A" "H1" 0).
  - reflexivity.
  - discriminate.
  - repeat constructor. cbn. discriminate.
Defined.

(** X5, witness: after an upload by A the document named by the model and
    the one announced by [load:ready] can be fetched. *)
Lemma loadFromSourceHash_finds_every_announced_document_witness :
  let log := [(0, load_request (upload_of "A" "H1" "a.odt"));
              (5, load_start (uploaded_of "A" "H1" "handle-1" "a.odt"))] in
  let m := run log fresh_model in
  (forall h, docSourceHash m = Some h ->
             is_Some (loadFromSourceHash m h false))
  /\
  (forall v h n u,
      In (publish_load_ready v h n u) ([] ++ run_effects log fresh_model) ->
      is_Some (loadFromSourceHash m h true)).
Proof.
  apply (loadFromSourceHash_finds_every_announced_document None 0 fresh_model []
           [(0, load_request (upload_of "A" "H1" "a.odt"));
            (5, load_start (uploaded_of "A" "H1" "handle-1" "a.odt"))]).
  reflexivity.
Defined.

(** X6, witness: a session restored from the snapshot taken after A's
    upload. *)
Lemma restore_from_own_snapshot_witness :
  let log := [(0, load_request (upload_of "A" "H1" "a.odt"));
              (5, load_start (uploaded_of "A" "H1" "handle-1" "a.odt"));
              (9, place_set (place_of "A" 3))] in
  let m := run log fresh_model in
  exists m' out,
    init (Some (getPersistedData m)) 100 = Some (m', out) /\
    getPersistedData m' = getPersistedData m /\
    docSourceHash m' = docSourceHash m /\
    interactionStatus m' = emptyStatus /\
    placeState m' =
      ({| scroll_page := None; scroll_top := 0; scroll_left := 0 |},
       ScaleNumber 1, 0, 0) /\
    match docSourceHash m with
    | None => out = []
    | Some h =>
        exists e, knownHandles m !! h = Some e /\
                  out = [persistSession (getPersistedData m');
                         publish_load_ready None h (he_name e)
                           (Some "recovered session")]
    end.
Proof.
  apply (restore_from_own_snapshot None 0 fresh_model []
           [(0, load_request (upload_of "A" "H1" "a.odt"));
            (5, load_start (uploaded_of "A" "H1" "handle-1" "a.odt"));
            (9, place_set (place_of "A" 3))] 100).
  - reflexivity.
  - intros i. reflexivity.
  - discriminate.
Defined.

(** X9, witness: the extension of a name with two dots, and of a dot file. *)
Lemma file_extension_after_last_dot_witness :
  file_extension "archive.tar.gz" = "gz" /\ file_extension ".bashrc" = "".
Proof.
  split.
  - refine (proj2 (proj2 (file_extension_after_last_dot "archive.tar.gz" _)
                     "archive.tar" "gz" eq_refl eq_refl) _).
    + reflexivity.
    + discriminate.
  - refine (proj1 (proj2 (file_extension_after_last_dot ".bashrc" _)
                     "" "bashrc" eq_refl eq_refl) eq_refl).
    reflexivity.
Defined.

(** X13, witness: a base64 text of six characters and two of padding. *)
Lemma fromBase64url_restores_the_base64_text_witness :
  base64_to_url "ab+/cQ==" = "ab-_cQ" /\
  url_to_base64 (base64_to_url "ab+/cQ==") = "ab+/cQ==".
Proof.
  split; [reflexivity |].
  refine (fromBase64url_restores_the_base64_text "ab+/cQ" 2 _ _ _ _ _ _).
  - reflexivity.
  - reflexivity.
  - reflexivity.
  - lia.
  - reflexivity.
  - reflexivity.
Defined.

(** X14, witness: three scroll events within one frame period, 10 ms after
    the previous publication. *)
Lemma throttledInvoke_coalesces_to_the_latest_call_witness :
  let th := fst (throttle_fires "publishPlace" 100
                   (fst (throttledInvoke "publishPlace" 33 "f0" 90 None))) in
  let r1 := throttledInvoke "publishPlace" 33 "f1" 110 th in
  let r2 := throttled_calls "publishPlace" [(33, "f2", 115); (33, "f3", 120)] (fst r1) in
  let r3 := throttle_fires "publishPlace" 133 (fst r2) in
  (exists delay,
      snd r1 = [setTimeout_throttle "publishPlace" delay] /\ 0 <= delay /\
      (forall l, throttle_lastInvoke "publishPlace" th = Some l -> l <> 0 ->
                 l + 33 <= 110 + delay)) /\
  snd r2 = [] /\
  snd r3 = [invoke (List.last (map (fun c => snd (fst c))
                                 [(33, "f2", 115); (33, "f3", 120)]) "f1")] /\
  throttle_pending "publishPlace" (fst r3) = false /\
  throttle_lastInvoke "publishPlace" (fst r3) = Some 133.
Proof.
  apply (throttledInvoke_coalesces_to_the_latest_call "publishPlace" 33 "f1" 110
           [(33, "f2", 115); (33, "f3", 120)] 133
           (fst (throttle_fires "publishPlace" 100
                   (fst (throttledInvoke "publishPlace" 33 "f0" 90 None))))).
  - discriminate.
  - repeat constructor; cbn; discriminate.
  - reflexivity.
Defined.

(** X16, witness: a drag of view A, from mouse-down to mouse-up. *)
Lemma docMouseUp_message_reaches_no_model_handler_witness :
  "scroll" = "scroll" /\ "endInteraction" = "endInteraction" /\
  subscribed_handlers "session-1" "scroll" "endInteraction" = [] /\
  subscribed_handlers "session-1" "place" "endInteraction" = [h_endInteraction].
Proof.
  apply (docMouseUp_message_reaches_no_model_handler "session-1"
           [mouse_down true; mouse_up] (view_start "A")
           "scroll" "endInteraction" "A").
  left. reflexivity.
Defined.

(** X19, witness: A drops [a.odt] on a fresh session; B tries to turn the
    page while A uploads. *)
Lemma upload_completes_despite_navigation_witness :
  let v := {| v_viewId := "A"; v_userDescription := None; v_docSourceHash := None |} in
  let req := upload_of "A" "H1" "a.odt" in
  let log := [(1, place_set (place_of "B" 7)); (1000, future_check)] in
  let approved := deliver 0 (load_request req) fresh_model in
  snd approved = [publish_load_approved req] /\
  exists start,
    @onLoadApproved_publish named_handles v req (Some (Some "handle-1"))
    = Some (load_start start) /\
    let r := deliver 1200 (load_start start) (run log (fst approved)) in
    docSourceHash (fst r) = Some "H1" /\
    interactionStatus (fst r) = emptyStatus /\
    placeState (fst r) =
      ({| scroll_page := None; scroll_top := 0; scroll_left := 0 |},
       ScaleNumber 1, 0, 0) /\
    is_Some (loadFromSourceHash (fst r) "H1" true) /\
    (knownHandles fresh_model !! "H1" = None ->
     loadFromSourceHash (fst r) "H1" false
     = Some {| dl_toast := String.append "reading " "a.odt";
               dl_fetch := "handle-1" |}) /\
    snd r = [persistSession (getPersistedData (fst r));
             publish_load_ready (Some "A") "H1" "a.odt" None].
Proof.
  apply (@upload_completes_despite_navigation named_handles
           {| v_viewId := "A"; v_userDescription := None; v_docSourceHash := None |}
           fresh_model fresh_model "H1" "a.odt" (upload_of "A" "H1" "a.odt")
           "handle-1" 0 1200
           [(1, place_set (place_of "B" 7)); (1000, future_check)]).
  - discriminate.
  - reflexivity.
  - intros [Hlock _]. discriminate Hlock.
  - repeat constructor.
Defined.

(** C6, witness: view A presses the mouse, its scroll is granted the place
    lock, and it releases the mouse; B then tries to turn the page. *)
Lemma drag_release_leaves_the_place_lock_witness :
  let s := fst (docMouseDown true (view_start "A")) in
  let m := fst (deliver 0 (place_set (place_of "A" 3)) fresh_model) in
  (exists rest,
      snd (docMouseUp s) = view_publish "scroll" "endInteraction" "A" :: rest /\
      forall scope event v, ~ In (view_publish scope event v) rest) /\
  deliver_viewId_message "session-1" 40 "scroll" "endInteraction" "A" m
  = Some (m, []) /\
  deliver 50 (place_set (place_of "B" 7)) m = (m, []) /\
  deliver_viewId_message "session-1" 40 "place" "endInteraction" "A" m
  = Some (set_interactionStatus emptyStatus m, []).
Proof.
  apply (drag_release_leaves_the_place_lock "session-1"
           (fst (docMouseDown true (view_start "A")))
           (fst (deliver 0 (place_set (place_of "A" 3)) fresh_model))
           0 40 50 (place_of "B" 7)).
  - discriminate.
  - reflexivity.
  - reflexivity.
  - discriminate.
Defined.


(** The digest and the base64 of the platform on the bytes of ["abc"], and
    the base64 of one byte and of two. *)
Example web_platform_on_abc :
  let bytes_of (s : string) := map byte_of_ascii (list_ascii_of_string s) in
  base64 (sha256 (bytes_of "abc")) = "ungWv48Bz+pBQUDeXa4iI7ADYaOWF3qctBD/YfIAFa0="
  /\ base64 (bytes_of "a") = "YQ=="
  /\ base64 (bytes_of "ab") = "YWI=".
Proof. vm_compute. repeat split. Qed.
